(** * cloudformer / cloudpuff: the inline template language and the compiler driver

    A shallow embedding of

    - [cloudformer/templates/string_parser.py]: the regular expression
      [PARSE_STR_RE], the stack machine of [StringParser] and the
      serialization of the parsed items, and
    - [cloudpuff/templates/compiler.py]: [TemplateCompiler.load_string] with
      its two post-processing passes,

    followed by the properties of the specification that concern them.

    Conventions.  Python text is a [string] of 8-bit characters (the code
    points below 256).  The code base is Python 2 ([setup.py] iterates with
    [iteritems]) working on text strings: [splitlines] and [strip] follow
    the text-string tables, the regular expression classes are the ASCII
    ones of [re] without the UNICODE flag.  Python objects that are mutated
    while shared (the items of the parsing stack, which also sit in the
    contents of their parent) live in a store and are named by address. *)

From Stdlib Require Import String Ascii List Bool Arith Lia.
From stdpp Require Import base list strings.
Import ListNotations.

Open Scope string_scope.
Open Scope nat_scope.
Open Scope list_scope.

Set Warnings "-register-all".

(** ** Text *)

Module Text.

Definition chars (s : string) : list ascii := list_ascii_of_string s.
Definition text (l : list ascii) : string := string_of_list_ascii l.

Definition code (c : ascii) : nat := nat_of_ascii c.

(** [\s] of [re] without the UNICODE flag: space, \t, \n, \v, \f, \r. *)
Definition re_space (c : ascii) : bool :=
  let n := code c in (n =? 32) || ((9 <=? n) && (n <=? 13)).

(** Characters removed by [strip()] on a text string. *)
Definition py_isspace (c : ascii) : bool :=
  let n := code c in
  (n =? 32) || ((9 <=? n) && (n <=? 13)) || ((28 <=? n) && (n <=? 31))
  || (n =? 133) || (n =? 160).

(** Line boundaries of [splitlines()] on a text string
    (a carriage return followed by a line feed counts once). *)
Definition py_linebreak (c : ascii) : bool :=
  let n := code c in
  ((10 <=? n) && (n <=? 13)) || ((28 <=? n) && (n <=? 30)) || (n =? 133).

Definition is_alpha (c : ascii) : bool :=
  let n := code c in
  ((65 <=? n) && (n <=? 90)) || ((97 <=? n) && (n <=? 122)).

Definition is_digit (c : ascii) : bool :=
  let n := code c in (48 <=? n) && (n <=? 57).

Definition is_char (x c : ascii) : bool := (code x =? code c).

(** The longest prefix of [l] whose characters satisfy [p], and the rest. *)
Fixpoint span (p : ascii → bool) (l : list ascii) : list ascii * list ascii :=
  match l with
  | c :: l' =>
      if p c then let '(a, b) := span p l' in (c :: a, b) else ([], l)
  | [] => ([], [])
  end.

(** [s.splitlines(True)]: the lines of [s], each with its line ending. *)
Fixpoint splitlines_go (acc : list ascii) (l : list ascii) : list (list ascii) :=
  match l with
  | [] => match acc with [] => [] | _ => [rev acc] end
  | c :: l' =>
      if py_linebreak c then
        if is_char "013"%char c then
          match l' with
          | d :: l'' =>
              if is_char "010"%char d
              then rev (d :: c :: acc) :: splitlines_go [] l''
              else rev (c :: acc) :: splitlines_go [] l'
          | [] => [rev (c :: acc)]
          end
        else rev (c :: acc) :: splitlines_go [] l'
      else splitlines_go (c :: acc) l'
  end.

Definition splitlines (s : string) : list string :=
  map text (splitlines_go [] (chars s)).

(** [s.strip()]. *)
Fixpoint lstrip (l : list ascii) : list ascii :=
  match l with
  | c :: l' => if py_isspace c then lstrip l' else l
  | [] => []
  end.

Definition strip (s : string) : string :=
  text (rev (lstrip (rev (lstrip (chars s))))).

(** [s[i:j]] for [0 <= i] and [0 <= j]. *)
Definition slice (i j : nat) (l : list ascii) : list ascii :=
  take (j - i) (drop i l).

(** [s.lower()], on the ASCII letters (no other character below 256
    lowers to an ASCII letter). *)
Definition lower_char (c : ascii) : ascii :=
  let n := code c in
  if (65 <=? n) && (n <=? 90) then ascii_of_nat (n + 32) else c.

Definition lower (s : string) : string := text (map lower_char (chars s)).

(** [needle in hay] for two strings. *)
Fixpoint is_prefix (p l : list ascii) : bool :=
  match p, l with
  | [], _ => true
  | c :: p', d :: l' => is_char c d && is_prefix p' l'
  | _ :: _, [] => false
  end.

Fixpoint contains_go (p l : list ascii) : bool :=
  is_prefix p l || match l with [] => false | _ :: l' => contains_go p l' end.

Definition contains (needle hay : string) : bool :=
  contains_go (chars needle) (chars hay).

End Text.

(** ** Values

    The data the parser and the compiler exchange: text, mappings, sequences
    (with the list subclass they belong to) and the objects of
    [cloudformer.templates.state]. *)

(** The list classes: the built-in [list] and the two subclasses declared
    in [cloudformer.templates.state]. *)
Inductive list_kind := PlainList | UncollapsibleList | VarsStringsList.

(** Addresses of stack items in the store. *)
Abbreviation addr := nat (only parsing).

Inductive value :=
| VNone                                   (* None *)
| VStr (s : string)
| VVarRef (name : string)                 (* VarReference(name) *)
| VDict (d : list (string * value))       (* a mapping, in insertion order *)
| VList (k : list_kind) (l : list value)
| VItem (a : addr).                       (* a StringParserStackItem, by reference *)

Definition is_list (v : value) : bool :=
  match v with VList _ _ => true | _ => false end.

(** Python truth value: [None], empty text, an empty mapping and an empty
    sequence are false; objects without [__len__] are true. *)
Definition truthy (v : value) : bool :=
  match v with
  | VNone => false
  | VStr s => negb (String.eqb s "")
  | VDict d => match d with [] => false | _ => true end
  | VList _ l => match l with [] => false | _ => true end
  | VVarRef _ | VItem _ => true
  end.

(** The exceptions that can leave the modelled code. *)
Inductive exn :=
| ConstructorError (msg : string)
| IndexError
| KeyError (key : string)
| AttributeError
| TypeError
| DanglingAddress       (* an address outside the store: never raised by the code *)
| OutOfFuel.            (* the recursion bound of the model was reached *)

Inductive result (A : Type) :=
| Ok (a : A)
| Err (e : exn).
Arguments Ok {A} a.
Arguments Err {A} e.

(** ** The regular expression [PARSE_STR_RE] *)

Module Lexer.
Import Text.

(** What one match of [PARSE_STR_RE] holds in its named groups. *)
Inductive token :=
| TFunc (func_name : string) (params : option (list ascii)) (func_open : bool)
| TClose
| TRef (ref_name : string)
| TVar (var : string).          (* group var_name or group var_path *)

Record rmatch := RMatch { m_start : nat; m_end : nat; m_tok : token }.

Definition not_rparen (c : ascii) : bool := negb (is_char ")" c).
Definition is_ref_char (c : ascii) : bool :=
  is_alpha c || is_digit c || is_char ":" c || is_char "_" c.
Definition is_var_char (c : ascii) : bool :=
  is_alpha c || is_digit c || is_char "_" c.
Definition is_path_char (c : ascii) : bool :=
  is_var_char c || is_char "." c.

Definition skip_space (l : list ascii) : list ascii := snd (span re_space l).

(** An optional trailing line feed. *)
Definition opt_newline (l : list ascii) : list ascii :=
  match l with
  | c :: l' => if is_char "010" c then l' else l
  | [] => l
  end.

(** First alternative:
    [<%\s*(?P<func_name>[A-Za-z]+)\s*(\((?P<params>([^)]+))\))?(?P<func_open>\s*{)?\s*%>\n?].
    Every repetition is over a character class disjoint from what may
    follow it, so the greedy choice is the only one that can succeed.
    The result is the token and the text left after the match. *)
Definition match_func (l : list ascii) : option (token * list ascii) :=
  match l with
  | "<"%char :: "%"%char :: r0 =>
      let '(name, r2) := span is_alpha (skip_space r0) in
      match name with
      | [] => None
      | _ :: _ =>
          let r3 := skip_space r2 in
          let '(params, r4) :=
            match r3 with
            | "("%char :: r =>
                match span not_rparen r with
                | ((_ :: _) as p, ")"%char :: r') => (Some p, r')
                | _ => (None, r3)
                end
            | _ => (None, r3)
            end in
          let '(func_open, r5) :=
            match skip_space r4 with
            | "{"%char :: r => (true, r)
            | _ => (false, r4)
            end in
          match skip_space r5 with
          | "%"%char :: ">"%char :: r6 =>
              Some (TFunc (text name) params func_open, opt_newline r6)
          | _ => None
          end
      end
  | _ => None
  end.

(** Second alternative: [(?P<func_close><%\s*}\s*%>)\n?]. *)
Definition match_close (l : list ascii) : option (token * list ascii) :=
  match l with
  | "<"%char :: "%"%char :: r0 =>
      match skip_space r0 with
      | "}"%char :: r1 =>
          match skip_space r1 with
          | "%"%char :: ">"%char :: r2 => Some (TClose, opt_newline r2)
          | _ => None
          end
      | _ => None
      end
  | _ => None
  end.

(** Third alternative:
    [@@(?P<ref_brace>{)?(?P<ref_name>[A-Za-z0-9:_]+)(?(ref_brace)})]. *)
Definition match_ref (l : list ascii) : option (token * list ascii) :=
  match l with
  | "@"%char :: "@"%char :: "{"%char :: r0 =>
      match span is_ref_char r0 with
      | ((_ :: _) as name, "}"%char :: r1) => Some (TRef (text name), r1)
      | _ => None
      end
  | "@"%char :: "@"%char :: r0 =>
      match span is_ref_char r0 with
      | ((_ :: _) as name, r1) => Some (TRef (text name), r1)
      | _ => None
      end
  | _ => None
  end.

(** Fourth alternative:
    [\$\$((?P<var_name>[A-Za-z0-9_]+)|{(?P<var_path>[A-Za-z0-9_.]+)})]. *)
Definition match_var (l : list ascii) : option (token * list ascii) :=
  match l with
  | "$"%char :: "$"%char :: "{"%char :: r0 =>
      match span is_path_char r0 with
      | ((_ :: _) as path, "}"%char :: r1) => Some (TVar (text path), r1)
      | _ => None
      end
  | "$"%char :: "$"%char :: r0 =>
      match span is_var_char r0 with
      | ((_ :: _) as name, r1) => Some (TVar (text name), r1)
      | _ => None
      end
  | _ => None
  end.

(** A match of the whole expression at the head of [l]: the alternatives
    in their order. *)
Definition match_here (l : list ascii) : option (token * list ascii) :=
  match match_func l with
  | Some r => Some r
  | None =>
      match match_close l with
      | Some r => Some r
      | None =>
          match match_ref l with
          | Some r => Some r
          | None => match_var l
          end
      end
  end.

(** [PARSE_STR_RE.finditer(s)]: the non-overlapping matches from left to
    right.  [skip] counts the characters of the last match still to be
    passed over; every match has at least two characters. *)
Fixpoint finditer_go (skip pos : nat) (l : list ascii) : list rmatch :=
  match l with
  | [] => []
  | _ :: l' =>
      match skip with
      | S k => finditer_go k (S pos) l'
      | 0 =>
          match match_here l with
          | Some (tok, rest) =>
              let len := length l - length rest in
              RMatch pos (pos + len) tok :: finditer_go (len - 1) (S pos) l'
          | None => finditer_go 0 (S pos) l'
          end
      end
  end.

Definition finditer (l : list ascii) : list rmatch := finditer_go 0 0 l.

(** [FUNC_PARAM_RE.split(params)] with [FUNC_PARAM_RE = ,\s*]. *)
Fixpoint split_params (after_comma : bool) (acc l : list ascii)
  : list (list ascii) :=
  match l with
  | [] => [rev acc]
  | c :: l' =>
      if after_comma && re_space c then split_params true acc l'
      else if is_char "," c then rev acc :: split_params true [] l'
      else split_params false (c :: acc) l'
  end.

End Lexer.

(** ** The parsing stack of [StringParser] *)

Module Parser.
Import Text Lexer.

(** *** What the parser reads

    [_parse_line] walks the matches of [PARSE_STR_RE] over a line, adds the
    text before each match to the current item and then handles the
    match.  Matching does not look at the stack, so a line is first turned
    into the sequence of these steps; the values of [params] are lines of
    their own ([_handle_func] parses each with [_parse_line]). *)
Inductive event :=
| EText (s : string)                        (* add_content(s[prev:start]) *)
| EFunc (func_name : string)
        (params : option (list (list event)))
        (func_open : bool)                  (* _handle_func *)
| EClose                                    (* _handle_func_block_close *)
| ERef (ref_name : string)                  (* _handle_ref_name *)
| EVar (var_name : string)                  (* _handle_var *)
| ENoFuel.                                  (* recursion bound of [line_events] *)

Section Matches.
Variable tok_event : token → event.
Variable s : list ascii.

(** The loop [for m in self.PARSE_STR_RE.finditer(s)] and the text left
    after the last match; [prev] is the end of the previous match. *)
Fixpoint matches_events (prev : nat) (ms : list rmatch) : list event :=
  match ms with
  | m :: ms' =>
      (if 0 <? m_start m
       then [EText (text (slice prev (m_start m) s))] else [])
      ++ tok_event (m_tok m) :: matches_events (m_end m) ms'
  | [] =>
      if prev =? length s then []
      else [EText (text (drop prev s))]
  end.
End Matches.

(** The steps of one line.  A value of [params] is shorter than the line
    it stands in, so [fuel] above the length of the line is never used
    up. *)
Fixpoint line_events (fuel : nat) (s : list ascii) : list event :=
  match fuel with
  | 0 => [ENoFuel]
  | S fuel' =>
      let tok_event t :=
        match t with
        | TFunc name None o => EFunc name None o
        | TFunc name (Some p) o =>
            EFunc name
                  (Some (map (line_events fuel') (split_params false [] p))) o
        | TClose => EClose
        | TRef r => ERef r
        | TVar v => EVar v
        end in
      matches_events tok_event s 0 (finditer s)
  end.

Definition events_of (s : string) : list event :=
  line_events (S (String.length s)) (chars s).

(** *** The items

    The classes that are instantiated: [StringParserStackItem] for the
    root of a stack, and through [FUNCTIONS.get(func_name, BlockFunction)]
    the three block classes. *)
Inductive item_class := CItem | CBlock | CIf | CElse.

Record item := Item {
  cls : item_class;
  contents : list value;
  pop_count : nat;
  func_name : string;
  params : list value;
  is_elseif : bool;                 (* _is_elseif *)
  if_true_content : list value;     (* _if_true_content *)
  if_false_content : list value;    (* _if_false_content *)
  cur_is_false : bool               (* _cur_content is _if_false_content *)
}.

(** [StringParserStackItem()]. *)
Definition new_item : item :=
  Item CItem [] 1 "" [] false [] [] false.

(** [cls(func_name, norm_params, stack=stack)]. *)
Definition new_function (c : item_class) (name : string) (ps : list value)
  : item :=
  Item c [] 1 name ps false [] [] false.

Definition with_contents (o : item) (l : list value) : item :=
  Item (cls o) l (pop_count o) (func_name o) (params o) (is_elseif o)
       (if_true_content o) (if_false_content o) (cur_is_false o).

Definition with_if_true (o : item) (l : list value) : item :=
  Item (cls o) (contents o) (pop_count o) (func_name o) (params o)
       (is_elseif o) l (if_false_content o) (cur_is_false o).

Definition with_if_false (o : item) (l : list value) : item :=
  Item (cls o) (contents o) (pop_count o) (func_name o) (params o)
       (is_elseif o) (if_true_content o) l (cur_is_false o).

Definition with_cur_false (o : item) : item :=
  Item (cls o) (contents o) (pop_count o) (func_name o) (params o)
       (is_elseif o) (if_true_content o) (if_false_content o) true.

(** The three assignments made to an [ElseIf] when it is added to an
    [If]. *)
Definition as_elseif (o : item) (parent_pop_count : nat) : item :=
  Item (cls o) (contents o) (parent_pop_count + 1) "If" (params o) true
       (if_true_content o) (if_false_content o) (cur_is_false o).

(** [FUNCTIONS.get(func_name, BlockFunction)]. *)
Definition function_class (name : string) : item_class :=
  if String.eqb name "If" then CIf
  else if String.eqb name "ElseIf" then CIf
  else if String.eqb name "Else" then CElse
  else CBlock.

(** [isinstance(_, Function)]; every function is a [BlockFunction]. *)
Definition is_function_class (c : item_class) : bool :=
  match c with CItem => false | CBlock | CIf | CElse => true end.

(** *** State: the store of items and the stack

    The head of [stack] is [StringParserStack.current] (the last element
    of the Python list). *)
Record pstate := PState { heap : list item; stack : list addr }.

Definition M (A : Type) : Type := pstate → result (A * pstate).

#[global] Instance M_ret : MRet M := λ A a σ, Ok (a, σ).
#[global] Instance M_bind : MBind M := λ A B f m σ,
  match m σ with
  | Ok (a, σ') => f a σ'
  | Err e => Err e
  end.

Definition raise {A} (e : exn) : M A := λ _, Err e.

Definition get_item (a : addr) : M item := λ σ,
  match heap σ !! a with
  | Some o => Ok (o, σ)
  | None => Err DanglingAddress
  end.

Definition set_item (a : addr) (o : item) : M unit := λ σ,
  Ok ((), PState (<[a := o]> (heap σ)) (stack σ)).

Definition alloc (o : item) : M addr := λ σ,
  Ok (length (heap σ), PState (heap σ ++ [o]) (stack σ)).

Definition get_stack : M (list addr) := λ σ, Ok (stack σ, σ).

Definition set_stack (st : list addr) : M unit := λ σ,
  Ok ((), PState (heap σ) st).

(** [StringParserStack.current]: [self[-1]]. *)
Definition current : M addr := λ σ,
  match stack σ with
  | a :: _ => Ok (a, σ)
  | [] => Err IndexError
  end.

(** [StringParserStack.push]. *)
Definition push (a : addr) : M unit := λ σ,
  Ok ((), PState (heap σ) (a :: stack σ)).

(** [stack.pop()]. *)
Definition pop : M unit := λ σ,
  match stack σ with
  | _ :: st => Ok ((), PState (heap σ) st)
  | [] => Err IndexError
  end.

Fixpoint repeatM (n : nat) (m : M unit) : M unit :=
  match n with
  | 0 => mret ()
  | S n' => m;; repeatM n' m
  end.

Definition dquote : string := String (ascii_of_nat 34) "".

(** [isinstance(content, Function)]. *)
Definition is_function (content : value) : M bool :=
  match content with
  | VItem b => o ← get_item b; mret (is_function_class (cls o))
  | _ => mret false
  end.

(** [StringParserStackItem.add_content], inherited by [BlockFunction] and
    [ElseBlockFunction]. *)
Definition item_add_content (a : addr) (content : value) : M bool :=
  self ← get_item a;
  set_item a (with_contents self (contents self ++ [content]));;
  is_function content.

(** The branch of [IfBlockFunction.add_content] for an [Else] or [ElseIf]:
    the two checks, the switch of [_cur_content] and the rewriting of an
    [ElseIf].  The result says whether [add_content] returns [False]
    here. *)
Definition if_add_else (a b : addr) (name : string) : M bool :=
  self ← get_item a;
  match if_true_content self, if_false_content self with
  | [], _ =>
      raise (ConstructorError
               ("Found " +:+ name +:+ " without a " +:+ dquote +:+ "true"
                +:+ dquote +:+ " value in the If"))
  | _ :: _, _ :: _ =>
      raise (ConstructorError ("Found " +:+ name +:+ " after an Else"))
  | _ :: _, [] =>
      set_item a (with_cur_false self);;
      if String.eqb name "Else" then mret true
      else
        (* name is ElseIf *)
        self ← get_item a;
        content ← get_item b;
        set_item b (as_elseif content (pop_count self));;
        mret false
  end.

(** [IfBlockFunction.add_content]. *)
Definition if_add_content (a : addr) (content : value) : M bool :=
  returned ←
    match content with
    | VItem b =>
        c ← get_item b;
        if is_function_class (cls c)
           && (String.eqb (func_name c) "Else"
               || String.eqb (func_name c) "ElseIf")
        then if_add_else a b (func_name c)
        else mret false
    | _ => mret false
    end;
  if returned : bool then mret false
  else
    self ← get_item a;
    set_item a
      (if cur_is_false self
       then with_if_false self (if_false_content self ++ [content])
       else with_if_true self (if_true_content self ++ [content]));;
    mret true.

(** [item.add_content(content)], by the class of the item. *)
Definition add_content (a : addr) (content : value) : M bool :=
  self ← get_item a;
  match cls self with
  | CIf => if_add_content a content
  | CItem | CBlock | CElse => item_add_content a content
  end.

(** [isinstance(stack.current, IfBlockFunction)]. *)
Definition current_is_if : M bool :=
  a ← current; o ← get_item a;
  mret (match cls o with CIf => true | _ => false end).

(** [func.validate(stack)], by the class of [func]. *)
Definition validate (f : addr) : M unit :=
  func ← get_item f;
  match cls func with
  | CIf =>
      if is_elseif func then
        ok ← current_is_if;
        if ok : bool then mret ()
        else raise (ConstructorError
                      "Found ElseIf without a matching If or ElseIf")
      else mret ()
  | CElse =>
      ok ← current_is_if;
      if ok : bool then mret ()
      else raise (ConstructorError "Found Else without a matching If")
  | CItem | CBlock => mret ()
  end.

(** [_handle_func]; [norm_params] parses the values of [params]. *)
Definition handle_func (name : string) (norm_params : M (list value))
    (func_open : bool) : M unit :=
  cur_stack ← current;
  ps ← norm_params;
  func ← alloc (new_function (function_class name) name ps);
  validate func;;
  can_push ← add_content cur_stack (VItem func);
  if can_push && func_open then push func else mret ().

(** [_handle_func_block_close]. *)
Definition handle_func_block_close : M unit :=
  a ← current; o ← get_item a;
  repeatM (pop_count o) pop.

(** [stack.current.add_content(content)] with the result dropped. *)
Definition add_to_current (content : value) : M unit :=
  a ← current; add_content a content;; mret ().

(** [_handle_ref_name]. *)
Definition handle_ref_name (name : string) : M unit :=
  add_to_current (VDict [("Ref", VStr name)]).

(** [_handle_var]. *)
Definition handle_var (name : string) : M unit :=
  add_to_current (VVarRef name).

(** [if not stack: stack.push(StringParserStackItem())]. *)
Definition ensure_root : M unit :=
  st ← get_stack;
  match st with
  | [] => a ← alloc new_item; push a
  | _ :: _ => mret ()
  end.

Section WithState.
(** [cloudformer/templates/state.py] is not among the sources.  Its
    three methods that the parser calls are parameters:
    [process_tree(content, resolve_variables=False)] and
    [normalize_vars_list], which take and give back a list (the second
    may give it back as a [VarsStringsList]), and
    [collapse_variables]. *)
Variable process_tree : list value → list value.
Variable normalize_vars_list : list value → list_kind * list value.
Variable collapse_variables : list value → value.

(** The end of [_parse_line] when it was called without a stack. *)
Definition line_result : M value :=
  a ← current; o ← get_item a;
  match contents o with
  | [] => raise IndexError                        (* parts[0] *)
  | [p] => mret p
  | _ :: _ :: _ => mret (collapse_variables (contents o))
  end.

(** [_parse_line(value)]: a stack of its own for the steps [run]. *)
Definition own_line (run : M unit) : M value :=
  outer ← get_stack;
  set_stack [];;
  ensure_root;;
  run;;
  r ← line_result;
  set_stack outer;;
  mret r.

(** One step of the loop of [_parse_line]. *)
Fixpoint run_event (e : event) : M unit :=
  match e with
  | EText s => add_to_current (VStr s)
  | EFunc name ps func_open =>
      let fix run_all (evs : list event) : M unit :=
        match evs with
        | [] => mret ()
        | e' :: evs' => run_event e';; run_all evs'
        end in
      let fix parse_all (lines : list (list event)) : M (list value) :=
        match lines with
        | [] => mret []
        | l :: lines' =>
            v ← own_line (run_all l);
            vs ← parse_all lines';
            mret (v :: vs)
        end in
      handle_func name
        (match ps with None => mret [] | Some lines => parse_all lines end)
        func_open
  | EClose => handle_func_block_close
  | ERef name => handle_ref_name name
  | EVar name => handle_var name
  | ENoFuel => raise OutOfFuel
  end.

Fixpoint run_events (evs : list event) : M unit :=
  match evs with
  | [] => mret ()
  | e :: evs' => run_event e;; run_events evs'
  end.

(** [[self._parse_line(value) for value in FUNC_PARAM_RE.split(params)]]. *)
Fixpoint parse_params (lines : list (list event)) : M (list value) :=
  match lines with
  | [] => mret []
  | l :: lines' =>
      v ← own_line (run_events l);
      vs ← parse_params lines';
      mret (v :: vs)
  end.

(** [_parse_line(s, func_stack)] on the stack of [parse_string]. *)
Definition _parse_line (evs : list event) : M unit :=
  ensure_root;; run_events evs.

(** The loop [for line in lines] of [parse_string]. *)
Fixpoint parse_lines (lines : list (list event)) : M unit :=
  match lines with
  | [] => mret ()
  | l :: lines' => _parse_line l;; parse_lines lines'
  end.
End WithState.

End Parser.

(** ** Serialization of the parsed items *)

Module Serialize.
Import Parser.

#[global] Instance result_ret : MRet result := λ A a, Ok a.
#[global] Instance result_bind : MBind result := λ A B f m,
  match m with
  | Ok a => f a
  | Err e => Err e
  end.

(** [contents += x] if [x] is a list, [contents.append(x)] if not. *)
Definition splice (v : value) : list value :=
  match v with
  | VList _ l => l
  | _ => [v]
  end.

(** [IfBlockFunction.normalize_function_contents], from the two
    normalized buckets. *)
Definition if_contents (if_true if_false : value) : list value :=
  splice if_true ++ (if truthy if_false then splice if_false else []).

(** [{ 'Fn::Join': ['', content] }]. *)
Definition join (content : value) : value :=
  VDict [("Fn::Join", VList PlainList [VStr ""; content])].

(** The end of [normalize_content] for a list the template state has
    given back. *)
Definition collapse (k : list_kind) (l : list value) : value :=
  match l with
  | [] => VList k l
  | [x] => x
  | _ :: _ :: _ =>
      match k with
      | VarsStringsList => VList k l
      | PlainList | UncollapsibleList => join (VList k l)
      end
  end.

Section WithState.
Variable process_tree : list value → list value.
Variable normalize_vars_list : list value → list_kind * list value.

(** [item.serialize()], by the class of the item; [norm] is
    [normalize_content]. *)
Definition serialize (norm : value → result value) (o : item)
  : result value :=
  match cls o with
  | CItem =>
      l ← mapM norm (contents o);
      mret (VList PlainList l)
  | CBlock | CElse =>
      l ← mapM norm (contents o);
      mret (VDict [("Fn::" +:+ func_name o,
                    VList UncollapsibleList (params o ++ l))])
  | CIf =>
      if_true ← norm (VList PlainList (if_true_content o));
      if_false ← norm (VList PlainList (if_false_content o));
      mret (VDict [("Fn::If",
                    VList UncollapsibleList
                          (params o ++ if_contents if_true if_false))])
  end.

(** [normalize_content(content)] over the store [h].  The items form a
    tree, which the recursion follows through the store: [fuel] bounds
    its depth. *)
Fixpoint normalize_content (fuel : nat) (h : list item) (content : value)
  : result value :=
  match fuel with
  | 0 => Err OutOfFuel
  | S fuel' =>
      content ←
        match content with
        | VItem a =>
            match h !! a with
            | Some o => serialize (normalize_content fuel' h) o
            | None => Err DanglingAddress
            end
        | _ => mret content
        end;
      match content with
      | VList _ l =>
          l ← mapM (normalize_content fuel' h) l;
          let '(k, l) := normalize_vars_list (process_tree l) in
          mret (collapse k l)
      | _ => mret content
      end
  end.
End WithState.

End Serialize.

(** ** [StringParser.parse_string] *)

Module StringParser.
Import Text Parser Serialize.

(** The test of the first line: [lines[0].strip() == '__base64__'] gives
    the function to wrap the result in, and the lines left to parse.
    There is no first line in an empty list. *)
Definition base64_split (lines : list string)
  : option (option string * list string) :=
  match lines with
  | [] => None
  | first :: rest =>
      Some (if String.eqb (strip first) "__base64__"
            then (Some "Fn::Base64", rest)
            else (None, lines))
  end.

Section WithState.
Variable process_tree : list value → list value.
Variable normalize_vars_list : list value → list_kind * list value.
Variable collapse_variables : list value → value.

(** The part of [parse_string] after the lines are parsed: the check of
    the stack and the normalization of what is left on it. *)
Definition finish (σ : pstate) : result value :=
  if 1 <? length (stack σ)
  then Err (ConstructorError "Unbalanced braces in template")
  else
    match stack σ with
    | [] => Err IndexError                       (* func_stack.current *)
    | cur_stack :: _ =>
        normalize_content process_tree normalize_vars_list
          (2 * length (heap σ) + 2) (heap σ) (VItem cur_stack)
    end.

Definition parse_string (s : string) : result value :=
  match base64_split (splitlines s) with
  | None => Err IndexError                       (* lines[0] *)
  | Some (process_func, lines) =>
      match parse_lines collapse_variables (map events_of lines)
                        (PState [] []) with
      | Err e => Err e
      | Ok (_, σ) =>
          result ← finish σ;
          match process_func with
          | Some f => mret (VDict [(f, result)])
          | None => mret result
          end
      end
  end.
End WithState.

End StringParser.

(** ** Mappings

    A Python mapping ([dict], [OrderedDict]) is the list of its entries in
    insertion order; its keys are distinct. *)

Module Dict.

Definition dict := list (string * value).

(** [d[k]] or [d.get(k)]. *)
Fixpoint get (k : string) (d : dict) : option value :=
  match d with
  | [] => None
  | (k', v) :: d' => if String.eqb k k' then Some v else get k d'
  end.

(** [k in d]. *)
Definition mem (k : string) (d : dict) : bool :=
  match get k d with Some _ => true | None => false end.

(** [d[k] = v]: an existing key keeps its place. *)
Fixpoint set (k : string) (v : value) (d : dict) : dict :=
  match d with
  | [] => [(k, v)]
  | (k', v') :: d' =>
      if String.eqb k k' then (k, v) :: d' else (k', v') :: set k v d'
  end.

(** [del d[k]], and the removal done by [d.pop(k, default)]. *)
Fixpoint del (k : string) (d : dict) : dict :=
  match d with
  | [] => []
  | (k', v') :: d' =>
      if String.eqb k k' then del k d' else (k', v') :: del k d'
  end.

(** [d.update(d2)]. *)
Fixpoint update (d d2 : dict) : dict :=
  match d2 with
  | [] => d
  | (k, v) :: d2' => update (set k v d) d2'
  end.

Definition keys (d : dict) : list string := map fst d.

(** The invariant of a Python mapping. *)
Definition wf (d : dict) : Prop := NoDup (keys d).

End Dict.

(** ** [TemplateCompiler] *)

Module Compiler.
Import Serialize.

(** [SECTIONS]. *)
Definition SECTIONS : list string :=
  ["Parameters"; "Mappings"; "Conditions"; "Resources"; "Outputs"].

(** An entry of [ami_outputs]: the mapping with the keys [resource_name]
    and [outputs], the latter with its three keys. *)
Record ami_output := AmiOutput {
  resource_name : string;
  previous_ami_key : string;
  instance_id_key : string;
  name_format_key : string
}.

(** The attributes of a [TemplateCompiler]. *)
Record compiler := Compiler' {
  doc : Dict.dict;
  meta : Dict.dict;
  for_amis : bool;
  ami_outputs : list ami_output;
  stack_param_lookups : Dict.dict;
  required_params : list (string * bool)
}.

(** [TemplateCompiler(for_amis)]; [doc] and [meta] start as [None] and
    are assigned by [load_string] before they are read. *)
Definition new_compiler (for_amis : bool) : compiler :=
  Compiler' [] [] for_amis [] [] [].

Definition with_doc (c : compiler) (d : Dict.dict) : compiler :=
  Compiler' d (meta c) (for_amis c) (ami_outputs c)
            (stack_param_lookups c) (required_params c).

(** [required_params[name] = b]. *)
Fixpoint set_required (k : string) (b : bool) (d : list (string * bool))
  : list (string * bool) :=
  match d with
  | [] => [(k, b)]
  | (k', b') :: d' =>
      if String.eqb k k' then (k, b) :: d' else (k', b') :: set_required k b d'
  end.

Fixpoint get_required (k : string) (d : list (string * bool)) : option bool :=
  match d with
  | [] => None
  | (k', b) :: d' => if String.eqb k k' then Some b else get_required k d'
  end.

(** [key in container]: a key of a mapping, an element of a sequence, a
    piece of a text; the other values are not containers. *)
Definition py_in (key : string) (container : value) : result bool :=
  match container with
  | VDict d => Ok (Dict.mem key d)
  | VList _ l =>
      Ok (existsb (λ v, match v with VStr s => String.eqb s key | _ => false end) l)
  | VStr s => Ok (Text.contains key s)
  | VNone | VVarRef _ | VItem _ => Err TypeError
  end.

(** [container[key]] for a text key. *)
Definition py_getitem (container : value) (key : string) : result value :=
  match container with
  | VDict d =>
      match Dict.get key d with
      | Some v => Ok v
      | None => Err (KeyError key)
      end
  | _ => Err TypeError
  end.

(** *** [_post_process_params] *)

(** The body of the loop for one parameter: the parameter without the two
    entries, and the two tables. *)
Definition post_process_param (param_name : string) (param : value)
    (lookups : Dict.dict) (required : list (string * bool))
  : result (value * Dict.dict * list (string * bool)) :=
  match param with
  | VDict p =>
      (* lookup_from_stack = param.pop('LookupFromStack', None) *)
      let lookup_from_stack :=
        match Dict.get "LookupFromStack" p with
        | Some v => v
        | None => VNone
        end in
      let p := Dict.del "LookupFromStack" p in
      let lookups :=
        if truthy lookup_from_stack
        then Dict.set param_name lookup_from_stack lookups
        else lookups in
      (* param.pop('Required', 'true').lower() == 'true' *)
      let required_value :=
        match Dict.get "Required" p with
        | Some v => v
        | None => VStr "true"
        end in
      let p := Dict.del "Required" p in
      match required_value with
      | VStr s =>
          Ok (VDict p, lookups,
              set_required param_name
                           (String.eqb (Text.lower s) "true") required)
      | _ => Err AttributeError                      (* no lower() *)
      end
  | VList _ _ => Err TypeError          (* list.pop takes one argument *)
  | _ => Err AttributeError             (* no pop() *)
  end.

Fixpoint post_process_entries (params : Dict.dict)
    (lookups : Dict.dict) (required : list (string * bool))
  : result (Dict.dict * Dict.dict * list (string * bool)) :=
  match params with
  | [] => Ok ([], lookups, required)
  | (name, param) :: params' =>
      '(param, lookups, required) ←
        post_process_param name param lookups required;
      '(params', lookups, required) ←
        post_process_entries params' lookups required;
      mret ((name, param) :: params', lookups, required)
  end.

Definition _post_process_params (c : compiler) : result compiler :=
  match Dict.get "Parameters" (doc c) with
  | Some (VDict params) =>
      '(params, lookups, required) ←
        post_process_entries params (stack_param_lookups c)
                             (required_params c);
      mret (Compiler' (Dict.set "Parameters" (VDict params) (doc c))
                      (meta c) (for_amis c) (ami_outputs c) lookups required)
  | Some _ => Err AttributeError                     (* no iteritems() *)
  | None => Err (KeyError "Parameters")
  end.

(** *** [_scan_cloudpuff_metadata] *)

(** An entry of [ami_metadata] (its key [resource] is not read again). *)
Record ami_info := AmiInfo {
  name_format : value;
  info_resource_name : string;
  previous_ami : option value
}.

(** The test that skips a resource:
    [not isinstance(resource, dict) or resource.get('Type') !=
     'AWS::EC2::Instance' or 'CloudPuff' not in resource.get('Metadata', {})]. *)
Definition skipped (resource : value) : result bool :=
  match resource with
  | VDict r =>
      match Dict.get "Type" r with
      | Some (VStr type) =>
          if String.eqb type "AWS::EC2::Instance" then
            present ←
              py_in "CloudPuff"
                    (match Dict.get "Metadata" r with
                     | Some m => m
                     | None => VDict []
                     end);
            mret (negb present)
          else mret true
      | _ => mret true
      end
  | _ => mret true
  end.

(** The body of the first loop for one resource. *)
Definition scan_resource (name : string) (resource : value)
  : result (option ami_info) :=
  skip ← skipped resource;
  if skip : bool then mret None
  else
    metadata_all ← py_getitem resource "Metadata";
    metadata ← py_getitem metadata_all "CloudPuff";
    has_format ← py_in "AMINameFormat" metadata;
    if has_format : bool then
      format ← py_getitem metadata "AMINameFormat";
      has_previous ← py_in "PreviousAMI" metadata;
      if has_previous : bool then
        previous ← py_getitem metadata "PreviousAMI";
        mret (Some (AmiInfo format name (Some previous)))
      else mret (Some (AmiInfo format name None))
    else mret None.

Fixpoint scan_resources (resources : Dict.dict) : result (list ami_info) :=
  match resources with
  | [] => mret []
  | (name, resource) :: resources' =>
      found ← scan_resource name resource;
      rest ← scan_resources resources';
      mret (match found with Some i => i :: rest | None => rest end)
  end.

Definition previous_ami_key_of (name : string) : string :=
  "CloudPuff" +:+ name +:+ "PreviousAMI".
Definition instance_id_key_of (name : string) : string :=
  "CloudPuff" +:+ name +:+ "InstanceID".
Definition name_format_key_of (name : string) : string :=
  "CloudPuff" +:+ name +:+ "AMINameFormat".

Definition output (description : string) (v : value) : value :=
  VDict [("Description", VStr description); ("Value", v)].

(** The body of the second loop for one entry of [ami_metadata]. *)
Definition ami_step (metadata : ami_info) (outputs : Dict.dict)
  : Dict.dict * ami_output :=
  let name := info_resource_name metadata in
  let outputs :=
    Dict.set (instance_id_key_of name)
             (output ("Instance ID for " +:+ name) (VDict [("Ref", VStr name)]))
             outputs in
  let outputs :=
    Dict.set (name_format_key_of name)
             (output ("Name format for the AMI for " +:+ name)
                     (name_format metadata))
             outputs in
  let outputs :=
    match previous_ami metadata with
    | Some previous =>
        Dict.set (previous_ami_key_of name)
                 (output ("Previous AMI ID created for " +:+ name) previous)
                 outputs
    | None => outputs
    end in
  (outputs,
   AmiOutput name (previous_ami_key_of name) (instance_id_key_of name)
             (name_format_key_of name)).

Fixpoint ami_steps (l : list ami_info) (outputs : Dict.dict)
  : Dict.dict * list ami_output :=
  match l with
  | [] => (outputs, [])
  | metadata :: l' =>
      let '(outputs, o) := ami_step metadata outputs in
      let '(outputs, os) := ami_steps l' outputs in
      (outputs, o :: os)
  end.

Definition _scan_cloudpuff_metadata (c : compiler) : result compiler :=
  match Dict.get "Resources" (doc c) with
  | Some (VDict resources) =>
      ami_metadata ← scan_resources resources;
      match ami_metadata with
      | _ :: _ =>
          if for_amis c then
            let '(outputs, recorded) := ami_steps ami_metadata [] in
            (* self.doc.setdefault('Outputs', {}).update(outputs) *)
            let current :=
              match Dict.get "Outputs" (doc c) with
              | Some v => v
              | None => VDict []
              end in
            match current with
            | VDict o =>
                mret (Compiler'
                        (Dict.set "Outputs" (VDict (Dict.update o outputs))
                                  (doc c))
                        (meta c) (for_amis c) (ami_outputs c ++ recorded)
                        (stack_param_lookups c) (required_params c))
            | _ => Err AttributeError                (* no update() *)
            end
          else mret c
      | [] => mret c
      end
  | Some _ => Err AttributeError                     (* no iteritems() *)
  | None => Err (KeyError "Resources")
  end.

(** *** [load_string] *)

(** [for section in self.SECTIONS: if not self.doc[section]: del ...]. *)
Fixpoint drop_empty (sections : list string) (d : Dict.dict)
  : result Dict.dict :=
  match sections with
  | [] => mret d
  | section :: sections' =>
      match Dict.get section d with
      | Some v =>
          drop_empty sections' (if truthy v then d else Dict.del section d)
      | None => Err (KeyError section)
      end
  end.

(** [self.doc[section] = reader.doc[section]], or an empty mapping. *)
Fixpoint copy_sections (sections : list string) (reader_doc d : Dict.dict)
  : Dict.dict :=
  match sections with
  | [] => d
  | section :: sections' =>
      copy_sections sections' reader_doc
        (Dict.set section
                  (match Dict.get section reader_doc with
                   | Some v => v
                   | None => VDict []
                   end) d)
  end.

Section WithReader.
(** [cloudpuff/templates/reader.py] and the template state are not among
    the sources.  A [TemplateReader] that has loaded a template is taken
    as its [doc] and its [template_state]; of the latter the compiler
    uses [process_tree(tree, resolve_variables=False,
    resolve_if_conditions=True)], which may add to [if_conditions].
    [py_str] is the text [%s] prints for a value that is not a text. *)
Variable tstate : Type.
Variable process_tree_if : tstate → value → value * tstate.
Variable if_conditions : tstate → Dict.dict.
Variable py_str : value → string.

(** [description += ' [v%s]' % version]. *)
Definition add_version (description version : value) : result value :=
  let suffix :=
    " [v" +:+ match version with VStr s => s | _ => py_str version end
    +:+ "]" in
  match description with
  | VStr d => Ok (VStr (d +:+ suffix))
  | VList k l =>
      Ok (VList k (l ++ map (λ ch, VStr (String ch "")) (Text.chars suffix)))
  | _ => Err TypeError
  end.

(** The two calls of [process_tree], on [Conditions] then [Resources]. *)
Fixpoint process_sections (sections : list string) (d : Dict.dict)
    (ts : tstate) : result (Dict.dict * tstate) :=
  match sections with
  | [] => mret (d, ts)
  | section :: sections' =>
      match Dict.get section d with
      | Some v =>
          let '(v, ts) := process_tree_if ts v in
          process_sections sections' (Dict.set section v d) ts
      | None => Err (KeyError section)
      end
  end.

(** [self.meta.setdefault('Name', stack_name)]. *)
Definition with_name (stack_name : value) (meta : Dict.dict) : Dict.dict :=
  if Dict.mem "Name" meta then meta else Dict.set "Name" stack_name meta.

(** The description: [meta['Description']], with the version appended
    when there is one.  A description that is a list is extended in
    place, so [meta] holds the extended list too. *)
Definition description_of (meta : Dict.dict)
  : result (option value * Dict.dict) :=
  match Dict.get "Description" meta with
  | Some description =>
      extended ←
        match Dict.get "Version" meta with
        | Some version => add_version description version
        | None => Ok description
        end;
      mret (Some extended,
            match description with
            | VList _ _ => Dict.set "Description" extended meta
            | _ => meta
            end)
  | None => mret (None, meta)
  end.

(** [load_string] from the point where the reader has loaded the
    template: [reader_doc] is [reader.doc], [ts] is
    [reader.template_state]. *)
Definition compile (c : compiler) (stack_name : value)
    (reader_doc : Dict.dict) (ts : tstate) : result compiler :=
  let d := [("AWSTemplateFormatVersion", VStr "2010-09-09")] in
  meta ←
    match Dict.get "Meta" reader_doc with
    | Some (VDict m) => Ok m
    | Some _ => Err AttributeError                 (* no setdefault() *)
    | None => Err (KeyError "Meta")
    end;
  '(description, meta) ← description_of (with_name stack_name meta);
  let d :=
    match description with
    | Some description => Dict.set "Description" description d
    | None => d
    end in
  let d := copy_sections SECTIONS reader_doc d in
  '(d, ts) ← process_sections ["Conditions"; "Resources"] d ts;
  d ←
    match if_conditions ts with
    | _ :: _ =>
        match Dict.get "Conditions" d with
        | Some (VDict conds) =>
            mret (Dict.set "Conditions"
                           (VDict (Dict.update conds (if_conditions ts))) d)
        | Some _ => Err AttributeError             (* no update() *)
        | None => Err (KeyError "Conditions")
        end
    | [] => mret d
    end;
  c ← _post_process_params
        (Compiler' d meta (for_amis c) (ami_outputs c)
                   (stack_param_lookups c) (required_params c));
  c ← _scan_cloudpuff_metadata c;
  d ← drop_empty SECTIONS (doc c);
  mret (with_doc c d).

(** [load_string(s, stack_name, filename)]: the reader is given the
    value of the variable [buildingAMIs] and the text. *)
Variable reader_load : string → string → result (Dict.dict * tstate).

Definition load_string (c : compiler) (s : string) (stack_name : value)
  : result compiler :=
  '(reader_doc, ts) ←
    reader_load (if for_amis c then "true" else "false") s;
  compile c stack_name reader_doc ts.
End WithReader.

End Compiler.

(** ** Vocabulary of the properties *)

Module Shape.
Import Parser Serialize.

(** Events that add one value to the current item and leave the stack
    alone: text, a reference, a variable. *)
Definition plain (e : event) : bool :=
  match e with
  | EText _ | ERef _ | EVar _ => true
  | EFunc _ _ _ | EClose | ENoFuel => false
  end.

(** The value such an event adds. *)
Definition value_of (e : event) : value :=
  match e with
  | EText s => VStr s
  | ERef name => VDict [("Ref", VStr name)]
  | EVar name => VVarRef name
  | EFunc _ _ _ | EClose | ENoFuel => VNone
  end.

(** A line, or a branch of a conditional, made of such events only. *)
Definition plain_line (l : list event) : Prop :=
  l ≠ [] ∧ Forall (λ e, plain e = true) l.

(** Parameters whose values are such lines. *)
Definition plain_params (ps : option (list (list event))) : Prop :=
  match ps with
  | None => True
  | Some lines => Forall plain_line lines
  end.

(** What [add_content] does to an item for a content that is not an
    [Else] or [ElseIf]. *)
Definition append_content (o : item) (v : value) : item :=
  match cls o with
  | CIf =>
      if cur_is_false o
      then with_if_false o (if_false_content o ++ [v])
      else with_if_true o (if_true_content o ++ [v])
  | CItem | CBlock | CElse => with_contents o (contents o ++ [v])
  end.

Definition plain_else (els : option (list event)) : Prop :=
  match els with
  | Some l => Forall (λ e, plain e = true) l
  | None => True
  end.

(** A branch of a chain: the parameters of its [If] or [ElseIf] and the
    events up to the next marker. *)
Record branch := Branch {
  condition : option (list (list event));
  body : list event
}.

Definition plain_branch (b : branch) : Prop :=
  plain_params (condition b) ∧ plain_line (body b).

(** [ElseIf (...) { body] for each further branch, the optional
    [Else { body], and the one closing marker. *)
Fixpoint chain_rest (elifs : list branch) (els : option (list event))
  : list event :=
  match elifs with
  | b :: elifs' =>
      EFunc "ElseIf" (condition b) true :: body b ++ chain_rest elifs' els
  | [] =>
      match els with
      | Some l => EFunc "Else" None true :: l
      | None => []
      end ++ [EClose]
  end.

(** [If (...) { body ElseIf (...) { body ... Else { body }]. *)
Definition chain (first : branch) (elifs : list branch)
    (els : option (list event)) : list event :=
  EFunc "If" (condition first) true :: body first ++ chain_rest elifs els.

(** The nesting depth of [Fn::If] in a serialized value. *)
Fixpoint if_depth (v : value) : nat :=
  match v with
  | VDict d =>
      let fix entries (d : list (string * value)) : nat :=
        match d with
        | [] => 0
        | (k, x) :: d' =>
            max ((if String.eqb k "Fn::If" then 1 else 0) + if_depth x)
                (entries d')
        end in
      entries d
  | VList _ l =>
      let fix elements (l : list value) : nat :=
        match l with
        | [] => 0
        | x :: l' => max (if_depth x) (elements l')
        end in
      elements l
  | VNone | VStr _ | VVarRef _ | VItem _ => 0
  end.

Definition depth_of_list (l : list value) : nat :=
  foldr (λ x n, max (if_depth x) n) 0 l.

(** The class of the item at an address. *)
Definition class_at (h : list item) (a : addr) (c : item_class) : Prop :=
  ∃ o, h !! a = Some o ∧ cls o = c.

(** The shape of a parsing stack: block functions and conditionals above
    one root item. *)
Fixpoint stack_ok (h : list item) (st : list addr) : Prop :=
  match st with
  | [] => True
  | [root] => class_at h root CItem
  | a :: st' => (class_at h a CBlock ∨ class_at h a CIf) ∧ stack_ok h st'
  end.

(** Values without a conditional inside. *)
Definition flat (v : value) : Prop := if_depth v = 0.

(** Values that [normalize_content] gives back as they are. *)
Definition atom (v : value) : Prop :=
  match v with
  | VItem _ | VList _ _ => False
  | VNone | VStr _ | VVarRef _ | VDict _ => True
  end.

(** What the properties on the depth of the output ask of the template
    state: a list of one value comes back as it is, and no conditional
    is made up. *)
Definition transparent
    (process_tree : list value → list value)
    (normalize_vars_list : list value → list_kind * list value)
    (collapse_variables : list value → value) : Prop :=
  (∀ v, (normalize_vars_list (process_tree [v])).2 = [v])
  ∧ (∀ l, Forall flat l →
          Forall flat (normalize_vars_list (process_tree l)).2)
  ∧ (∀ l, Forall flat l → flat (collapse_variables l)).

(** An [IfBlockFunction] named [If] with the given [pop_count] and
    [_is_elseif]. *)
Definition is_if (o : item) (k : nat) (elseif : bool) : Prop :=
  cls o = CIf ∧ func_name o = "If" ∧ pop_count o = k ∧ is_elseif o = elseif.

(** The items of a chain in the store: the conditional at [f], and for
    each [ElseIf] one more conditional that is the whole false branch of
    the one before and needs one more pop. *)
Fixpoint nested_ifs (h : list item) (gs : list addr) (f : addr) (k : nat)
    (elseif : bool) : Prop :=
  match gs with
  | [] =>
      ∃ o, h !! f = Some o ∧ is_if o k elseif
           ∧ Forall atom (if_false_content o)
  | g :: gs' =>
      ∃ o, h !! f = Some o ∧ is_if o k elseif
           ∧ if_false_content o = [VItem g]
           ∧ nested_ifs h gs' g (k + 1) true
  end.

(** The value [_parse_line] returns for a line of its own. *)
Definition line_value (collapse_variables : list value → value)
    (l : list event) : value :=
  match map value_of l with
  | [p] => p
  | vs => collapse_variables vs
  end.


(** The parameters as [_handle_func] computes them. *)
Definition norm_params (collapse_variables : list value → value)
    (ps : option (list (list event))) : M (list value) :=
  match ps with
  | None => mret []
  | Some lines => parse_params collapse_variables lines
  end.

Definition params_value (collapse_variables : list value → value)
    (ps : option (list (list event))) : list value :=
  match ps with
  | None => []
  | Some lines => map (line_value collapse_variables) lines
  end.


(** The list the template state gives back for [l], collapsed. *)
Definition finalize (process_tree : list value → list value)
    (normalize_vars_list : list value → list_kind * list value)
    (l : list value) : value :=
  collapse (normalize_vars_list (process_tree l)).1
           (normalize_vars_list (process_tree l)).2.


(** The store only grows, and an item keeps its class. *)
Definition heap_le (h h' : list item) : Prop :=
  length h ≤ length h'
  ∧ ∀ a o, h !! a = Some o → ∃ o', h' !! a = Some o' ∧ cls o' = cls o.


Definition good (σ : pstate) : Prop := stack_ok (heap σ) (stack σ).

(** A computation that leaves the stack as it is. *)
Definition keeps_stack {A} (m : M A) : Prop :=
  ∀ σ r σ', m σ = Ok (r, σ') →
            stack σ' = stack σ ∧ heap_le (heap σ) (heap σ').


(** A computation that keeps the shape of the stack. *)
Definition keeps_shape (m : M unit) : Prop :=
  ∀ σ σ', good σ → m σ = Ok ((), σ') →
          good σ' ∧ heap_le (heap σ) (heap σ').


(** Induction on events, through the lines of their parameters. *)
Section EventInduction.
Variable P : event → Prop.

Definition params_all (ps : option (list (list event))) : Prop :=
  match ps with
  | None => True
  | Some lines => Forall (Forall P) lines
  end.

Hypothesis Htext : ∀ s, P (EText s).
Hypothesis Hfunc : ∀ name ps o, params_all ps → P (EFunc name ps o).
Hypothesis Hclose : P EClose.
Hypothesis Href : ∀ name, P (ERef name).
Hypothesis Hvar : ∀ name, P (EVar name).
Hypothesis Hfuel : P ENoFuel.

Fixpoint event_nested_ind (e : event) : P e :=
  match e with
  | EText s => Htext s
  | EFunc name ps o =>
      Hfunc name ps o
        (match ps return params_all ps with
         | None => I
         | Some lines =>
             (fix all_lines (ls : list (list event))
                : Forall (Forall P) ls :=
                match ls with
                | [] => @List.Forall_nil _ _
                | l :: ls' =>
                    @List.Forall_cons _ _ _ _
                      ((fix all_events (l : list event) : Forall P l :=
                          match l with
                          | [] => @List.Forall_nil _ _
                          | e' :: l' =>
                              @List.Forall_cons _ _ _ _ (event_nested_ind e')
                                          (all_events l')
                          end) l)
                      (all_lines ls')
                end) lines
         end)
  | EClose => Hclose
  | ERef name => Href name
  | EVar name => Hvar name
  | ENoFuel => Hfuel
  end.
End EventInduction.


(** A template state that leaves everything as it is, for the examples. *)
Definition id_process_tree (l : list value) : list value := l.
Definition id_normalize_vars_list (l : list value) : list_kind * list value :=
  (PlainList, l).
Definition id_collapse_variables (l : list value) : value :=
  VList PlainList l.


Definition newline : string := String (ascii_of_nat 10) "".



(** The steps of a text with blocks that are opened and not closed:
    plain events, and functions with an opening brace other than [Else]
    and [ElseIf]. *)
Definition opening (e : event) : Prop :=
  plain e = true
  ∨ ∃ name ps, e = EFunc name ps true ∧ plain_params ps
               ∧ String.eqb name "Else" = false
               ∧ String.eqb name "ElseIf" = false.

Definition count_opens (evs : list event) : nat :=
  length (List.filter (λ e, negb (plain e)) evs).
End Shape.

(** ** Proof steps over the store *)

Module StoreTactics.
Import Parser.

Ltac heap_step :=
  first
    [ rewrite list_lookup_insert_eq
        by (rewrite ?length_insert, ?length_app; simpl; lia)
    | rewrite list_lookup_insert_ne by lia
    | match goal with
      | H : ?h !! ?a = Some _ |- context [?h !! ?a] => rewrite H
      end ];
  simpl.
Ltac heap_run := repeat heap_step.

Ltac mpure H :=
  cbv [get_stack set_stack alloc push set_item mret M_ret raise] in H.
End StoreTactics.

(** ** Vocabulary of the properties of the compiler *)

Module CompilerShape.
Import Compiler.

(** A parameter without the two entries the compiler takes out. *)
Definition stripped (p : Dict.dict) : Dict.dict :=
  Dict.del "Required" (Dict.del "LookupFromStack" p).

(** The text of the [Required] entry of a parameter, ['true'] when there
    is none; no text when the entry is not a text. *)
Definition required_text (p : Dict.dict) : option string :=
  match Dict.get "Required" p with
  | Some (VStr s) => Some s
  | Some _ => None
  | None => Some "true"
  end.

(** A parameter of the target format: a mapping without the two
    entries. *)
Definition plain_parameter (param : value) : Prop :=
  ∃ p, param = VDict p
       ∧ Dict.get "LookupFromStack" p = None
       ∧ Dict.get "Required" p = None.

(** The section [name] as [load_string] copies it. *)
Definition section (reader_doc : Dict.dict) (name : string) : value :=
  match Dict.get name reader_doc with
  | Some v => v
  | None => VDict []
  end.

(** The sections that are not empty, in the order of [SECTIONS]. *)
Definition kept_sections (reader_doc : Dict.dict) : Dict.dict :=
  List.filter (λ e, truthy e.2)
              (map (λ name, (name, section reader_doc name)) SECTIONS).

(** The two header fields. *)
Definition header (description : option value) : Dict.dict :=
  ("AWSTemplateFormatVersion", VStr "2010-09-09")
  :: match description with
     | Some d => [("Description", d)]
     | None => []
     end.

(** A compute-instance resource that asks for an image: its type, and a
    [CloudPuff] block in its [Metadata] with an [AMINameFormat]. *)
Definition ami_resource (r metadata : Dict.dict) (format : value) : Prop :=
  Dict.get "Type" r = Some (VStr "AWS::EC2::Instance")
  ∧ ∃ m, Dict.get "Metadata" r = Some (VDict m)
         ∧ Dict.get "CloudPuff" m = Some (VDict metadata)
         ∧ Dict.get "AMINameFormat" metadata = Some format.

(** The entries of the [Outputs] section of a document. *)
Definition outputs_of (d : Dict.dict) : Dict.dict :=
  match Dict.get "Outputs" d with
  | Some (VDict o) => o
  | _ => []
  end.

(** A template state for the examples: nothing to hoist. *)
Definition no_conditions (ts : unit) (v : value) : value * unit := (v, ts).
Definition no_if_conditions (ts : unit) : Dict.dict := [].
Definition no_py_str (v : value) : string := "".

(** The tables after one parameter. *)
Definition lookups_after (name : string) (p lookups : Dict.dict) : Dict.dict :=
  match Dict.get "LookupFromStack" p with
  | Some v => if truthy v then Dict.set name v lookups else lookups
  | None => lookups
  end.

(** The three endings of the output keys. *)
Definition is_suffix (s : string) : Prop :=
  s = "PreviousAMI" ∨ s = "InstanceID" ∨ s = "AMINameFormat".

(** The keys made for a resource name. *)
Definition own_key (name k : string) : Prop :=
  k = instance_id_key_of name ∨ k = name_format_key_of name
  ∨ k = previous_ami_key_of name.

(** The entry of [ami_outputs] made for a resource. *)
Definition recorded (info : ami_info) : ami_output :=
  let name := info_resource_name info in
  AmiOutput name (previous_ami_key_of name) (instance_id_key_of name)
            (name_format_key_of name).

(** Documents and compilers for the examples. *)
Definition example_parameters : Dict.dict :=
  [("Size",
    VDict [("Type", VStr "String"); ("Required", VStr "False");
           ("LookupFromStack", VStr "base")])].

Definition example_compiler (for_amis : bool) (d : Dict.dict) : compiler :=
  Compiler' d [] for_amis [] [] [].

Definition example_resources (metadata : Dict.dict) : Dict.dict :=
  [("Web",
    VDict [("Type", VStr "AWS::EC2::Instance");
           ("Metadata", VDict [("CloudPuff", VDict metadata)])])].

(** The document of [TemplateCompilerTests.test_compiling], as read. *)
Definition test_document : Dict.dict :=
  [("Meta",
    VDict [("Description", VStr "My description."); ("Version", VStr "1.0")]);
   ("Parameters", VDict [("key", VStr "value")]);
   ("Mappings", VDict [("key", VStr "value")]);
   ("Conditions", VDict [("key", VStr "value")]);
   ("Resources", VDict [("key", VStr "value")]);
   ("Outputs", VDict [("key", VStr "value")]);
   ("junk", VStr "blah")].

(** A document with an instance that names its image. *)
Definition image_document : Dict.dict :=
  [("Meta", VDict [("Description", VStr "Web server")]);
   ("Resources",
    VDict (example_resources [("AMINameFormat", VStr "web")]))].

(** The document of the test with a parameter that is a mapping, without
    conditions and with empty outputs. *)
Definition plain_document : Dict.dict :=
  [("Meta",
    VDict [("Description", VStr "My description."); ("Version", VStr "1.0")]);
   ("Parameters", VDict [("key", VDict [("Type", VStr "String")])]);
   ("Mappings", VDict [("key", VStr "value")]);
   ("Resources", VDict [("key", VStr "value")]);
   ("Outputs", VDict []);
   ("junk", VStr "blah")].

End CompilerShape.

(** * Properties *)

(** ** The state of the parser *)

Module ParserFacts.
Import Text Lexer Parser Serialize Shape StoreTactics.

Lemma bind_ok {A B} (m : M A) (f : A → M B) σ a σ' :
  m σ = Ok (a, σ') → (m ≫= f) σ = f a σ'.
Proof. intros H. unfold mbind, M_bind. by rewrite H. Qed.

Lemma bind_inv {A B} (m : M A) (f : A → M B) σ b σ2 :
  (m ≫= f) σ = Ok (b, σ2) →
  ∃ a σ1, m σ = Ok (a, σ1) ∧ f a σ1 = Ok (b, σ2).
Proof.
  unfold mbind, M_bind. destruct (m σ) as [[a σ1]|e]; [eauto|discriminate].
Qed.

Lemma get_item_ok h st a o :
  h !! a = Some o → get_item a (PState h st) = Ok (o, PState h st).
Proof. intros H. unfold get_item. simpl. by rewrite H. Qed.

Lemma is_function_value h st v :
  (∀ b, v ≠ VItem b) → is_function v (PState h st) = Ok (false, PState h st).
Proof. intros H. destruct v; try reflexivity. by destruct (H a). Qed.

Lemma append_content_cls o v : cls (append_content o v) = cls o.
Proof. unfold append_content. destruct (cls o) eqn:E; try done.
  by destruct (cur_is_false o). Qed.

(** Adding a value that is not an item. *)
Lemma add_content_value h st a o v :
  h !! a = Some o → (∀ b, v ≠ VItem b) →
  ∃ r, add_content a v (PState h st)
       = Ok (r, PState (<[a := append_content o v]> h) st).
Proof.
  intros Ha Hv. unfold add_content.
  rewrite (bind_ok _ _ _ _ _ (get_item_ok h st a o Ha)).
  unfold append_content.
  destruct (cls o) eqn:Hc.
  - unfold item_add_content.
    rewrite (bind_ok _ _ _ _ _ (get_item_ok h st a o Ha)).
    unfold mbind at 1, M_bind, set_item; simpl.
    rewrite is_function_value by done. eauto.
  - unfold item_add_content.
    rewrite (bind_ok _ _ _ _ _ (get_item_ok h st a o Ha)).
    unfold mbind at 1, M_bind, set_item; simpl.
    rewrite is_function_value by done. eauto.
  - unfold if_add_content.
    assert ((match v with
             | VItem b =>
                 c ← get_item b;
                 if is_function_class (cls c)
                    && (String.eqb (func_name c) "Else"
                        || String.eqb (func_name c) "ElseIf")
                 then if_add_else a b (func_name c)
                 else mret false
             | _ => mret false
             end) (PState h st) = Ok (false, PState h st)) as Hm.
    { destruct v; try reflexivity. by destruct (Hv a0). }
    rewrite (bind_ok _ _ _ _ _ Hm).
    rewrite (bind_ok _ _ _ _ _ (get_item_ok h st a o Ha)).
    unfold mbind, M_bind, set_item, mret, M_ret; simpl. eauto.
  - unfold item_add_content.
    rewrite (bind_ok _ _ _ _ _ (get_item_ok h st a o Ha)).
    unfold mbind at 1, M_bind, set_item; simpl.
    rewrite is_function_value by done. eauto.
Qed.

Lemma plain_value_of e : plain e = true → ∀ b, value_of e ≠ VItem b.
Proof. by destruct e. Qed.

Section WithState.
Variable collapse_variables : list value → value.
#[local] Abbreviation run_event := (run_event collapse_variables).
#[local] Abbreviation run_events := (run_events collapse_variables).

Lemma run_plain_event e h st a o :
  h !! a = Some o → plain e = true →
  run_event e (PState h (a :: st))
  = Ok ((), PState (<[a := append_content o (value_of e)]> h) (a :: st)).
Proof.
  intros Ha He.
  destruct (add_content_value h (a :: st) a o (value_of e) Ha
              (plain_value_of e He)) as [r Hr].
  destruct e; try discriminate; simpl;
    unfold handle_ref_name, handle_var, add_to_current;
    unfold mbind at 1, M_bind; simpl;
    rewrite (bind_ok _ _ _ _ _ Hr); reflexivity.
Qed.

Lemma run_plain_events evs : ∀ h st a o,
  h !! a = Some o → Forall (λ e, plain e = true) evs →
  run_events evs (PState h (a :: st))
  = Ok ((), PState (<[a := fold_left append_content (map value_of evs) o]> h)
                   (a :: st)).
Proof.
  induction evs as [|e evs IH]; intros h st a o Ha Hp.
  - simpl. by rewrite list_insert_id.
  - inversion Hp as [|?? He Hp']; subst. simpl.
    rewrite (bind_ok _ _ _ _ _ (run_plain_event e h st a o Ha He)).
    rewrite (IH _ _ _ (append_content o (value_of e))).
    + by rewrite list_insert_insert_eq.
    + apply list_lookup_insert_eq. by eapply lookup_lt_Some.
    + done.
Qed.

Lemma fold_append_item vs : ∀ o,
  cls o = CItem →
  fold_left append_content vs o = with_contents o (contents o ++ vs).
Proof.
  induction vs as [|v vs IH]; intros o Hc; simpl.
  - rewrite app_nil_r. by destruct o.
  - rewrite IH by (by rewrite append_content_cls).
    unfold append_content. rewrite Hc. simpl. by rewrite <- app_assoc.
Qed.

Lemma fold_append_if_true vs : ∀ o,
  cls o = CIf → cur_is_false o = false →
  fold_left append_content vs o
  = with_if_true o (if_true_content o ++ vs).
Proof.
  induction vs as [|v vs IH]; intros o Hc Hf; simpl.
  - rewrite app_nil_r. by destruct o.
  - unfold append_content at 2. rewrite Hc, Hf.
    rewrite IH by done. simpl. by rewrite <- app_assoc.
Qed.

Lemma fold_append_if_false vs : ∀ o,
  cls o = CIf → cur_is_false o = true →
  fold_left append_content vs o
  = with_if_false o (if_false_content o ++ vs).
Proof.
  induction vs as [|v vs IH]; intros o Hc Hf; simpl.
  - rewrite app_nil_r. by destruct o.
  - unfold append_content at 2. rewrite Hc, Hf.
    rewrite IH by done. simpl. by rewrite <- app_assoc.
Qed.

Lemma own_line_plain l h st :
  plain_line l →
  own_line collapse_variables (run_events l) (PState h st)
  = Ok (line_value collapse_variables l,
        PState (h ++ [with_contents new_item (map value_of l)]) st).
Proof.
  intros [Hne Hp]. unfold own_line.
  unfold mbind at 1, M_bind; simpl.
  unfold mbind at 1, M_bind; simpl.
  unfold mbind at 1, M_bind; simpl.
  unfold mbind at 1, M_bind. 
  rewrite (run_plain_events l (h ++ [new_item]) [] (length h) new_item);
    [|by rewrite lookup_app_r, Nat.sub_diag by lia|done].
  rewrite fold_append_item by done. simpl.
  replace (<[length h := with_contents new_item (map value_of l)]>
             (h ++ [new_item]))
    with (h ++ [with_contents new_item (map value_of l)]).
  2:{ replace (length h) with (length h + 0) at 1 by lia.
      by rewrite insert_app_r. }
  unfold line_result, line_value.
  unfold mbind, M_bind, current, get_item; simpl.
  rewrite lookup_app_r, Nat.sub_diag by lia. simpl.
  destruct l as [|e1 [|e2 l]]; [done|reflexivity|reflexivity].
Qed.

Lemma parse_params_plain lines : ∀ h st,
  Forall plain_line lines →
  ∃ roots,
    parse_params collapse_variables lines (PState h st)
    = Ok (map (line_value collapse_variables) lines,
           PState (h ++ roots) st).
Proof.
  induction lines as [|l lines IH]; intros h st Hp.
  - exists []. simpl. by rewrite app_nil_r.
  - inversion Hp as [|?? Hl Hp']; subst. simpl.
    rewrite (bind_ok _ _ _ _ _ (own_line_plain l h st Hl)).
    destruct (IH (h ++ [with_contents new_item (map value_of l)]) st Hp')
      as [roots Hr].
    rewrite (bind_ok _ _ _ _ _ Hr).
    exists (with_contents new_item (map value_of l) :: roots).
    simpl. unfold mret, M_ret. by rewrite <- app_assoc.
Qed.

Lemma run_event_func name ps func_open :
  run_event (EFunc name ps func_open)
  = handle_func name (norm_params collapse_variables ps) func_open.
Proof.
  destruct ps as [lines|]; reflexivity.
Qed.

Lemma norm_params_plain ps h st :
  plain_params ps →
  ∃ roots,
    norm_params collapse_variables ps (PState h st)
    = Ok (params_value collapse_variables ps, PState (h ++ roots) st).
Proof.
  destruct ps as [lines|]; simpl; intros Hp.
  - by apply parse_params_plain.
  - exists []. by rewrite app_nil_r.
Qed.
End WithState.

Section S.
Variable collapse_variables : list value → value.

Lemma repeat_pop n : ∀ h st,
  n ≤ length st → repeatM n pop (PState h st) = Ok ((), PState h (drop n st)).
Proof.
  induction n as [|n IH]; intros h st Hn; simpl.
  - by rewrite drop_0.
  - destruct st as [|a st]; simpl in Hn; [lia|].
    unfold mbind, M_bind. simpl. apply IH. lia.
Qed.

Lemma close_ok h st a o :
  h !! a = Some o → pop_count o ≤ S (length st) →
  run_event collapse_variables EClose (PState h (a :: st))
  = Ok ((), PState h (drop (pop_count o) (a :: st))).
Proof.
  intros Ha Hn. simpl. unfold handle_func_block_close.
  unfold mbind at 1, M_bind; simpl.
  rewrite (bind_ok _ _ _ _ _ (get_item_ok h (a :: st) a o Ha)).
  by apply repeat_pop.
Qed.

Lemma add_content_function h st a o f c :
  h !! a = Some o → h !! f = Some c → a ≠ f →
  is_function_class (cls c) = true →
  String.eqb (func_name c) "Else" = false →
  String.eqb (func_name c) "ElseIf" = false →
  add_content a (VItem f) (PState h st)
  = Ok (true, PState (<[a := append_content o (VItem f)]> h) st).
Proof.
  intros Ha Hf Hne Hfun HE HEI. unfold add_content.
  rewrite (bind_ok _ _ _ _ _ (get_item_ok h st a o Ha)).
  unfold append_content.
  assert (item_add_content a (VItem f) (PState h st)
          = Ok (true, PState (<[a := with_contents o (contents o ++ [VItem f])]> h) st)) as Hitem.
  { unfold item_add_content.
    rewrite (bind_ok _ _ _ _ _ (get_item_ok h st a o Ha)).
    unfold mbind at 1, M_bind, set_item; simpl.
    unfold get_item, mbind, M_bind; simpl.
    rewrite list_lookup_insert_ne by done. rewrite Hf. simpl.
    by rewrite Hfun. }
  destruct (cls o) eqn:Hc; try (by apply Hitem).
  unfold if_add_content.
  unfold mbind at 1, M_bind.
  rewrite (bind_ok _ _ _ _ _ (get_item_ok h st f c Hf)).
  rewrite Hfun, HE, HEI. simpl.
  rewrite (bind_ok _ _ _ _ _ (get_item_ok h st a o Ha)).
  reflexivity.
Qed.

Lemma function_class_fun name : is_function_class (function_class name) = true.
Proof.
  unfold function_class.
  by repeat match goal with |- context [if ?b then _ else _] => destruct b end.
Qed.

Lemma validate_new h st f name ps :
  h !! f = Some (new_function (function_class name) name ps) →
  String.eqb name "Else" = false →
  validate f (PState h st) = Ok ((), PState h st).
Proof.
  intros Hf HE. unfold validate.
  rewrite (bind_ok _ _ _ _ _ (get_item_ok h st f _ Hf)). simpl.
  unfold function_class. rewrite HE.
  by repeat match goal with |- context [if ?b then _ else _] => destruct b end.
Qed.

(** A function that is neither [Else] nor [ElseIf], met with any item
    on top of the stack. *)
Lemma handle_func_block name ps func_open h st a o :
  h !! a = Some o → plain_params ps →
  String.eqb name "Else" = false →
  String.eqb name "ElseIf" = false →
  ∃ roots,
    run_event collapse_variables (EFunc name ps func_open)
              (PState h (a :: st))
    = Ok ((),
          PState (<[a := append_content o (VItem (length (h ++ roots)))]>
                    ((h ++ roots)
                       ++ [new_function (function_class name) name
                             (params_value collapse_variables ps)]))
                 (if func_open then length (h ++ roots) :: a :: st
                  else a :: st)).
Proof.
  intros Ha Hp HE HEI.
  destruct (norm_params_plain collapse_variables ps h (a :: st) Hp)
    as [roots Hr].
  exists roots. rewrite run_event_func. unfold handle_func.
  unfold mbind at 1, M_bind; simpl.
  rewrite (bind_ok _ _ _ _ _ Hr).
  unfold mbind at 1, M_bind; simpl.
  set (nf := new_function _ _ _).
  set (h1 := h ++ roots).
  assert (a < length h) as Hlt by (by eapply lookup_lt_Some).
  assert (a < length h1) as Hlt1 by (unfold h1; rewrite length_app; lia).
  assert ((h1 ++ [nf]) !! length h1 = Some nf) as Hf
      by (by rewrite lookup_app_r, Nat.sub_diag by lia).
  assert ((h1 ++ [nf]) !! a = Some o) as Ha1.
  { rewrite lookup_app_l by done. unfold h1. by rewrite lookup_app_l. }
  rewrite (bind_ok _ _ _ _ _ (validate_new _ _ _ _ _ Hf HE)).
  rewrite (bind_ok _ _ _ _ _
             (add_content_function _ _ _ _ _ _ Ha1 Hf ltac:(lia)
                (function_class_fun name) HE HEI)).
  simpl. by destruct func_open.
Qed.

Lemma add_content_elseif h st a o f c :
  h !! a = Some o → h !! f = Some c → a ≠ f →
  cls o = CIf → if_true_content o ≠ [] → if_false_content o = [] →
  is_function_class (cls c) = true → func_name c = "ElseIf" →
  add_content a (VItem f) (PState h st)
  = Ok (true,
        PState (<[a := with_if_false (with_cur_false o) [VItem f]]>
                  (<[f := as_elseif c (pop_count o)]> h)) st).
Proof.
  intros Ha Hf Hne Hc Ht Hfl Hfun Hname.
  assert (a < length h) as Hlt by (by eapply lookup_lt_Some).
  assert (f < length h) as Hltf by (by eapply lookup_lt_Some).
  unfold add_content.
  rewrite (bind_ok _ _ _ _ _ (get_item_ok _ _ _ _ Ha)). rewrite Hc.
  unfold if_add_content.
  unfold mbind at 1, M_bind.
  unfold mbind at 1, M_bind.
  rewrite (get_item_ok _ _ _ _ Hf). rewrite Hfun, Hname. simpl.
  unfold if_add_else.
  rewrite (bind_ok _ _ _ _ _ (get_item_ok _ _ _ _ Ha)).
  rewrite Hfl. destruct (if_true_content o) as [|t ts] eqn:Htrue; [done|].
  unfold mbind, M_bind, mret, M_ret, get_item, set_item; simpl.
  heap_run. rewrite Hfl. simpl.
  rewrite (list_insert_insert_ne _ f a) by lia.
  by rewrite list_insert_insert_eq.
Qed.

Lemma add_content_else h st a o f c :
  h !! a = Some o → h !! f = Some c →
  cls o = CIf → if_true_content o ≠ [] → if_false_content o = [] →
  is_function_class (cls c) = true → func_name c = "Else" →
  add_content a (VItem f) (PState h st)
  = Ok (false, PState (<[a := with_cur_false o]> h) st).
Proof.
  intros Ha Hf Hc Ht Hfl Hfun Hname.
  unfold add_content.
  rewrite (bind_ok _ _ _ _ _ (get_item_ok _ _ _ _ Ha)). rewrite Hc.
  unfold if_add_content.
  unfold mbind at 1, M_bind.
  unfold mbind at 1, M_bind.
  rewrite (get_item_ok _ _ _ _ Hf). rewrite Hfun, Hname. simpl.
  unfold if_add_else.
  rewrite (bind_ok _ _ _ _ _ (get_item_ok _ _ _ _ Ha)).
  rewrite Hfl. destruct (if_true_content o) as [|t ts] eqn:Htrue; [done|].
  reflexivity.
Qed.

(** An [ElseIf] met with a conditional on top of the stack that has a
    true branch and no false branch yet. *)
Lemma handle_func_elseif ps func_open h st a o :
  h !! a = Some o → plain_params ps →
  cls o = CIf → if_true_content o ≠ [] → if_false_content o = [] →
  ∃ roots,
    run_event collapse_variables (EFunc "ElseIf" ps func_open)
              (PState h (a :: st))
    = Ok ((),
          PState (<[a := with_if_false (with_cur_false o)
                            [VItem (length (h ++ roots))]]>
                    ((h ++ roots)
                       ++ [as_elseif
                             (new_function CIf "ElseIf"
                                (params_value collapse_variables ps))
                             (pop_count o)]))
                 (if func_open then length (h ++ roots) :: a :: st
                  else a :: st)).
Proof.
  intros Ha Hp Hc Ht Hfl.
  destruct (norm_params_plain collapse_variables ps h (a :: st) Hp)
    as [roots Hr].
  exists roots. rewrite run_event_func. unfold handle_func.
  unfold mbind at 1, M_bind; simpl.
  rewrite (bind_ok _ _ _ _ _ Hr).
  unfold mbind at 1, M_bind; simpl.
  change (function_class "ElseIf") with CIf.
  set (nf := new_function _ _ _).
  set (h1 := h ++ roots).
  assert (a < length h) as Hlt by (by eapply lookup_lt_Some).
  assert (a < length h1) as Hlt1 by (unfold h1; rewrite length_app; lia).
  assert ((h1 ++ [nf]) !! length h1 = Some nf) as Hf
      by (by rewrite lookup_app_r, Nat.sub_diag by lia).
  assert ((h1 ++ [nf]) !! a = Some o) as Ha1.
  { rewrite lookup_app_l by done. unfold h1. by rewrite lookup_app_l. }
  rewrite (bind_ok _ _ _ _ _
             (validate_new _ (a :: st) _ "ElseIf" _ Hf eq_refl)).
  rewrite (bind_ok _ _ _ _ _
             (add_content_elseif _ _ _ _ _ _ Ha1 Hf ltac:(lia) Hc Ht Hfl
                eq_refl eq_refl)).
  replace (<[length h1 := as_elseif nf (pop_count o)]> (h1 ++ [nf]))
    with (h1 ++ [as_elseif nf (pop_count o)]).
  2:{ replace (length h1) with (length h1 + 0) at 1 by lia.
      by rewrite insert_app_r. }
  by destruct func_open.
Qed.

Lemma validate_else h st a o f ps :
  h !! f = Some (new_function CElse "Else" ps) →
  h !! a = Some o → cls o = CIf →
  validate f (PState h (a :: st)) = Ok ((), PState h (a :: st)).
Proof.
  intros Hf Ha Hc. unfold validate.
  rewrite (bind_ok _ _ _ _ _ (get_item_ok _ _ _ _ Hf)). simpl.
  unfold current_is_if.
  unfold mbind, M_bind, current, get_item; simpl.
  rewrite Ha. simpl. by rewrite Hc.
Qed.

(** An [Else] met with such a conditional: nothing is pushed, with or
    without an opening brace. *)
Lemma handle_func_else ps func_open h st a o :
  h !! a = Some o → plain_params ps →
  cls o = CIf → if_true_content o ≠ [] → if_false_content o = [] →
  ∃ roots,
    run_event collapse_variables (EFunc "Else" ps func_open)
              (PState h (a :: st))
    = Ok ((),
          PState (<[a := with_cur_false o]>
                    ((h ++ roots)
                       ++ [new_function CElse "Else"
                             (params_value collapse_variables ps)]))
                 (a :: st)).
Proof.
  intros Ha Hp Hc Ht Hfl.
  destruct (norm_params_plain collapse_variables ps h (a :: st) Hp)
    as [roots Hr].
  exists roots. rewrite run_event_func. unfold handle_func.
  unfold mbind at 1, M_bind; simpl.
  rewrite (bind_ok _ _ _ _ _ Hr).
  unfold mbind at 1, M_bind; simpl.
  change (function_class "Else") with CElse.
  set (nf := new_function _ _ _).
  set (h1 := h ++ roots).
  assert (a < length h) as Hlt by (by eapply lookup_lt_Some).
  assert (a < length h1) as Hlt1 by (unfold h1; rewrite length_app; lia).
  assert ((h1 ++ [nf]) !! length h1 = Some nf) as Hf
      by (by rewrite lookup_app_r, Nat.sub_diag by lia).
  assert ((h1 ++ [nf]) !! a = Some o) as Ha1.
  { rewrite lookup_app_l by done. unfold h1. by rewrite lookup_app_l. }
  rewrite (bind_ok _ _ _ _ _ (validate_else _ _ _ _ _ _ Hf Ha1 Hc)).
  rewrite (bind_ok _ _ _ _ _
             (add_content_else _ _ _ _ _ _ Ha1 Hf Hc Ht Hfl
                eq_refl eq_refl)).
  reflexivity.
Qed.

Lemma run_events_app l1 l2 σ :
  run_events collapse_variables (l1 ++ l2) σ
  = match run_events collapse_variables l1 σ with
    | Ok (_, σ') => run_events collapse_variables l2 σ'
    | Err e => Err e
    end.
Proof.
  revert σ. induction l1 as [|e l1 IH]; intros σ; [done|].
  simpl. unfold mbind, M_bind.
  destruct (run_event collapse_variables e σ) as [[[] σ1]|]; [|done].
  apply IH.
Qed.
End S.

(** *** Depth of conditionals *)

Lemma if_depth_list k l : if_depth (VList k l) = depth_of_list l.
Proof. simpl. induction l as [|x l IH]; [done|]. simpl. by rewrite IH. Qed.

Lemma depth_of_list_app l1 l2 :
  depth_of_list (l1 ++ l2) = max (depth_of_list l1) (depth_of_list l2).
Proof.
  induction l1 as [|x l1 IH]; [done|]. simpl. rewrite IH. lia.
Qed.

Lemma depth_of_list_flat l : Forall flat l ↔ depth_of_list l = 0.
Proof.
  unfold flat. induction l as [|x l IH]; simpl.
  - split; [done|constructor].
  - rewrite Forall_cons, IH. lia.
Qed.

Lemma if_depth_if args :
  if_depth (VDict [("Fn::If", VList UncollapsibleList args)])
  = S (depth_of_list args).
Proof.
  change (if_depth (VDict [("Fn::If", VList UncollapsibleList args)]))
    with (max (1 + if_depth (VList UncollapsibleList args)) 0).
  rewrite if_depth_list. lia.
Qed.

Lemma flat_splice v : flat v → Forall flat (splice v).
Proof.
  destruct v; simpl; try (by repeat constructor).
  unfold flat. rewrite if_depth_list. by rewrite depth_of_list_flat.
Qed.

Lemma flat_collapse k l : Forall flat l → flat (collapse k l).
Proof.
  intros Hl. unfold collapse.
  assert (flat (VList k l)) as Hlist.
  { unfold flat. rewrite if_depth_list. by apply depth_of_list_flat. }
  destruct l as [|x [|y l]]; [done|by inversion Hl|].
  assert (flat (join (VList k (x :: y :: l)))) as Hjoin.
  { unfold flat, join.
    change (if_depth (VDict [("Fn::Join", VList PlainList [VStr ""; VList k (x :: y :: l)])]))
      with (max (0 + if_depth (VList PlainList [VStr ""; VList k (x :: y :: l)])) 0).
    rewrite if_depth_list.
    change (depth_of_list [VStr ""; VList k (x :: y :: l)])
      with (max 0 (max (if_depth (VList k (x :: y :: l))) 0)).
    unfold flat in Hlist. rewrite Hlist. reflexivity. }
  by destruct k.
Qed.

Lemma flat_value_of e : flat (value_of e).
Proof. by destruct e. Qed.

Lemma atom_value_of e : plain e = true → atom (value_of e).
Proof. by destruct e. Qed.

Lemma mapM_cons {A B} (f : A → result B) x l :
  mapM f (x :: l) = (y ← f x; k ← mapM f l; mret (y :: k)).
Proof. reflexivity. Qed.

Section Norm.
Variable process_tree : list value → list value.
Variable normalize_vars_list : list value → list_kind * list value.
#[local] Abbreviation norm :=
  (normalize_content process_tree normalize_vars_list).
#[local] Abbreviation finalize :=
  (finalize process_tree normalize_vars_list).

Lemma normalize_atom fuel h v : atom v → norm (S fuel) h v = Ok v.
Proof. by destruct v. Qed.

Lemma mapM_atoms fuel h vs :
  Forall atom vs → mapM (norm (S fuel) h) vs = Ok vs.
Proof.
  induction 1 as [|v vs Hv _ IH]; [done|].
  rewrite mapM_cons, normalize_atom by done. by rewrite IH.
Qed.

Lemma normalize_list fuel h k l l1 :
  mapM (norm fuel h) l = Ok l1 →
  norm (S fuel) h (VList k l) = Ok (finalize l1).
Proof.
  intros Hl. simpl. rewrite Hl. simpl. unfold Shape.finalize.
  by destruct (normalize_vars_list (process_tree l1)).
Qed.

Lemma normalize_atoms fuel h k vs :
  Forall atom vs → norm (S (S fuel)) h (VList k vs) = Ok (finalize vs).
Proof. intros Hvs. apply normalize_list. by apply mapM_atoms. Qed.

Lemma normalize_if fuel h f o t fl :
  h !! f = Some o → cls o = CIf →
  norm fuel h (VList PlainList (if_true_content o)) = Ok t →
  norm fuel h (VList PlainList (if_false_content o)) = Ok fl →
  norm (S fuel) h (VItem f)
  = Ok (VDict [("Fn::If",
                VList UncollapsibleList (params o ++ if_contents t fl))]).
Proof.
  intros Hf Hc Ht Hfl. simpl. rewrite Hf. unfold serialize. rewrite Hc.
  rewrite Ht. simpl. rewrite Hfl. reflexivity.
Qed.
End Norm.

Section Chain.
Variable process_tree : list value → list value.
Variable normalize_vars_list : list value → list_kind * list value.
Variable collapse_variables : list value → value.
#[local] Abbreviation norm :=
  (normalize_content process_tree normalize_vars_list).
#[local] Abbreviation finalize :=
  (Shape.finalize process_tree normalize_vars_list).
#[local] Abbreviation run_events := (run_events collapse_variables).
#[local] Abbreviation run_event := (run_event collapse_variables).

Hypothesis single_kept :
  ∀ v, (normalize_vars_list (process_tree [v])).2 = [v].
Hypothesis flat_kept :
  ∀ l, Forall flat l →
       Forall flat (normalize_vars_list (process_tree l)).2.
Hypothesis collapse_flat :
  ∀ l, Forall flat l → flat (collapse_variables l).

Lemma flat_finalize l : Forall flat l → flat (finalize l).
Proof. intros Hl. apply flat_collapse. by apply flat_kept. Qed.

Lemma plain_values l :
  Forall (λ e, plain e = true) l →
  Forall atom (map value_of l) ∧ Forall flat (map value_of l).
Proof.
  induction 1 as [|e l He _ [IH1 IH2]]; [by split|].
  split; constructor; auto using atom_value_of, flat_value_of.
Qed.

Lemma flat_line_value l :
  Forall (λ e, plain e = true) l → flat (line_value collapse_variables l).
Proof.
  intros Hl. destruct (plain_values l Hl) as [_ Hf].
  unfold line_value.
  destruct (map value_of l) as [|x [|y vs]] eqn:E;
    [by apply collapse_flat|by inversion Hf|by apply collapse_flat].
Qed.

Lemma flat_params_value ps :
  plain_params ps → Forall flat (params_value collapse_variables ps).
Proof.
  destruct ps as [lines|]; simpl; [|constructor].
  induction 1 as [|l lines [_ Hl] _ IH]; constructor;
    auto using flat_line_value.
Qed.

(** The serialization of a conditional whose branches hold plain
    values. *)
Lemma serialize_leaf h f o fuel :
  h !! f = Some o → cls o = CIf → Forall flat (params o) →
  Forall atom (if_true_content o) → Forall flat (if_true_content o) →
  Forall atom (if_false_content o) → Forall flat (if_false_content o) →
  3 ≤ fuel →
  ∃ args,
    norm fuel h (VItem f)
    = Ok (VDict [("Fn::If", VList UncollapsibleList args)])
    ∧ depth_of_list args = 0.
Proof.
  intros Hf Hc Hp Hta Htf Hfa Hff Hfuel.
  destruct fuel as [|[|[|fuel]]]; try lia.
  eexists. split.
  - eapply normalize_if; [done..| |];
      by apply normalize_atoms.
  - apply depth_of_list_flat. rewrite !Forall_app. split; [done|].
    unfold if_contents. apply Forall_app. split.
    + by apply flat_splice, flat_finalize.
    + destruct (truthy _); [|constructor].
      by apply flat_splice, flat_finalize.
Qed.

(** The serialization of a conditional whose false branch is one more
    conditional. *)
Lemma serialize_node h f o g n fuel0 fuel :
  h !! f = Some o → cls o = CIf → Forall flat (params o) →
  Forall atom (if_true_content o) → Forall flat (if_true_content o) →
  if_false_content o = [VItem g] →
  (∀ fuel', fuel0 ≤ fuel' →
     ∃ args,
       norm fuel' h (VItem g)
       = Ok (VDict [("Fn::If", VList UncollapsibleList args)])
       ∧ depth_of_list args = n) →
  fuel0 + 3 ≤ fuel →
  ∃ args,
    norm fuel h (VItem f)
    = Ok (VDict [("Fn::If", VList UncollapsibleList args)])
    ∧ depth_of_list args = S n.
Proof.
  intros Hf Hc Hp Hta Htf Hfl Hg Hfuel.
  destruct fuel as [|[|[|fuel]]]; try lia.
  destruct (Hg (S fuel) ltac:(lia)) as (args_g & Hng & Hdg).
  eexists. split.
  - eapply normalize_if; [done..| |].
    + by apply normalize_atoms.
    + rewrite Hfl. apply normalize_list.
      rewrite mapM_cons, Hng. reflexivity.
  - assert (finalize [VDict [("Fn::If", VList UncollapsibleList args_g)]]
            = VDict [("Fn::If", VList UncollapsibleList args_g)]) as ->.
    { unfold Shape.finalize.
      by rewrite (single_kept
                    (VDict [("Fn::If", VList UncollapsibleList args_g)])). }
    unfold if_contents. simpl truthy. cbv iota. simpl splice at 2.
    rewrite !depth_of_list_app.
    apply depth_of_list_flat in Hp. rewrite Hp.
    pose proof (flat_splice _ (flat_finalize _ Htf)) as Ht.
    apply depth_of_list_flat in Ht. rewrite Ht.
    change (depth_of_list [VDict [("Fn::If", VList UncollapsibleList args_g)]])
      with (max (if_depth (VDict [("Fn::If", VList UncollapsibleList args_g)])) 0).
    rewrite if_depth_if, Hdg. lia.
Qed.

Lemma run_events_cons e l σ :
  run_events (e :: l) σ = (run_event e;; run_events l) σ.
Proof. reflexivity. Qed.

Lemma run_close h st a o :
  h !! a = Some o → pop_count o ≤ S (length st) →
  run_events [EClose] (PState h (a :: st))
  = Ok ((), PState h (drop (pop_count o) (a :: st))).
Proof.
  intros Ha Hn. simpl run_events.
  by rewrite (bind_ok _ _ _ _ _ (close_ok collapse_variables h st a o Ha Hn)).
Qed.

Lemma chain_rest_ok elifs : ∀ els b h st f o,
  h !! f = Some o → cls o = CIf → func_name o = "If" →
  if_true_content o = [] → if_false_content o = [] →
  cur_is_false o = false →
  pop_count o ≤ S (length st) → Forall flat (params o) →
  plain_line b → Forall plain_branch elifs →
  (∀ l, els = Some l → Forall (λ e, plain e = true) l) →
  ∃ h',
    run_events (b ++ chain_rest elifs els) (PState h (f :: st))
    = Ok ((), PState h' (drop (pop_count o) (f :: st)))
    ∧ length h ≤ length h'
    ∧ (∀ x, x < length h → x ≠ f → h' !! x = h !! x)
    ∧ (∃ gs, length gs = length elifs
             ∧ nested_ifs h' gs f (pop_count o) (is_elseif o))
    ∧ ∃ fuel0, ∀ fuel, fuel0 ≤ fuel →
        ∃ args,
          norm fuel h' (VItem f)
          = Ok (VDict [("Fn::If", VList UncollapsibleList args)])
          ∧ depth_of_list args = length elifs.
Proof.
  induction elifs as [|b1 elifs IH];
    intros els b h st f o Hf Hc Hname Ht Hfl Hcur Hpop Hpar [Hbne Hb] Hel Hels.
  - (* the last branch *)
    pose proof (lookup_lt_Some _ _ _ Hf) as Hlt.
    destruct (plain_values b Hb) as [Hba Hbf].
    rewrite run_events_app.
    rewrite (run_plain_events collapse_variables b h st f o Hf Hb).
    rewrite fold_append_if_true, Ht by done. simpl app.
    set (o1 := with_if_true o (map value_of b)).
    assert (<[f := o1]> h !! f = Some o1) as Hf1
        by (by apply list_lookup_insert_eq).
    destruct els as [l|]; simpl chain_rest.
    + (* Else *)
      specialize (Hels l eq_refl). destruct (plain_values l Hels) as [Hla Hlf].
      assert (if_true_content o1 ≠ []) as Hne1.
      { simpl. destruct b; [done|discriminate]. }
      destruct (handle_func_else collapse_variables None true
                  (<[f := o1]> h) st f o1 Hf1 I Hc Hne1 Hfl)
        as [roots Helse].
      simpl app. rewrite run_events_cons.
      rewrite (bind_ok _ _ _ _ _ Helse).
      set (h2 := <[f := with_cur_false o1]> _).
      assert (h2 !! f = Some (with_cur_false o1)) as Hf2.
      { apply list_lookup_insert_eq.
        rewrite !length_app, length_insert. lia. }
      rewrite run_events_app.
      rewrite (run_plain_events collapse_variables l h2 st f _ Hf2 Hels).
      rewrite fold_append_if_false by done. simpl if_false_content.
      rewrite Hfl. simpl app.
      set (o3 := with_if_false (with_cur_false o1) (map value_of l)).
      assert (<[f := o3]> h2 !! f = Some o3) as Hf3.
      { apply list_lookup_insert_eq. by eapply lookup_lt_Some. }
      rewrite (run_close _ _ _ o3 Hf3) by done.
      eexists. split; [reflexivity|].
      split; [|split; [|split]].
      * unfold h2. rewrite !length_insert, !length_app, length_insert. lia.
      * intros x Hx Hxf. unfold h2.
        rewrite !list_lookup_insert_ne by lia.
        rewrite !lookup_app_l
          by (rewrite ?length_app, ?length_insert; lia).
        by rewrite list_lookup_insert_ne by lia.
      * exists []. split; [done|]. by exists o3.
      * exists 3. intros fuel Hfuel.
        by apply (serialize_leaf _ f o3).
    + (* no Else *)
      rewrite (run_close _ _ _ o1 Hf1) by done.
      eexists. split; [reflexivity|].
      split; [|split; [|split]].
      * by rewrite length_insert.
      * intros x Hx Hxf. by rewrite list_lookup_insert_ne by lia.
      * exists []. split; [done|]. exists o1.
        repeat split; try done. simpl. rewrite Hfl. constructor.
      * exists 3. intros fuel Hfuel.
        apply (serialize_leaf _ f o1); try done.
        all: simpl; rewrite Hfl; constructor.
  - (* a branch followed by an ElseIf *)
    pose proof (lookup_lt_Some _ _ _ Hf) as Hlt.
    destruct (plain_values b Hb) as [Hba Hbf].
    inversion Hel as [|?? [Hcond Hbody] Hel']; subst.
    rewrite run_events_app.
    rewrite (run_plain_events collapse_variables b h st f o Hf Hb).
    rewrite fold_append_if_true, Ht by done. simpl app.
    set (o1 := with_if_true o (map value_of b)).
    assert (<[f := o1]> h !! f = Some o1) as Hf1
        by (by apply list_lookup_insert_eq).
    assert (if_true_content o1 ≠ []) as Hne1.
    { simpl. destruct b; [done|discriminate]. }
    simpl chain_rest.
    destruct (handle_func_elseif collapse_variables (condition b1) true
                (<[f := o1]> h) st f o1 Hf1 Hcond Hc Hne1 Hfl)
      as [roots Helif].
    rewrite run_events_cons.
    rewrite (bind_ok _ _ _ _ _ Helif).
    set (g := length (<[f := o1]> h ++ roots)).
    set (og := as_elseif _ _).
    set (o2 := with_if_false (with_cur_false o1) [VItem g]).
    set (h2 := <[f := o2]> _).
    assert (length h ≤ g) as Hhg
        by (unfold g; rewrite length_app, length_insert; lia).
    assert (f < g) as Hfg by lia.
    assert (length h2 = S g) as Hlen2.
    { unfold h2. rewrite length_insert, length_app. fold g. simpl. lia. }
    assert (h2 !! g = Some og) as Hg.
    { unfold h2. rewrite list_lookup_insert_ne by lia.
      by rewrite lookup_app_r, Nat.sub_diag by (fold g; lia). }
    assert (h2 !! f = Some o2) as Hf2.
    { apply list_lookup_insert_eq. rewrite length_app. fold g. lia. }
    destruct (IH els (body b1) h2 (f :: st) g og Hg eq_refl eq_refl
                 eq_refl eq_refl eq_refl)
      as (h' & Hrun & Hlen & Hframe & (gs & Hgs & Hnest) & fuel0 & Hser);
      [simpl; lia|by apply flat_params_value|done..|].
    assert (h' !! f = Some o2) as Hf' by (by rewrite Hframe by lia).
    exists h'. split; [|split; [|split; [|split]]].
    + rewrite Hrun. do 3 f_equal. simpl pop_count.
      by rewrite Nat.add_1_r.
    + lia.
    + intros x Hx Hxf.
      rewrite Hframe by lia.
      unfold h2. rewrite list_lookup_insert_ne by lia.
      rewrite !lookup_app_l
        by (rewrite ?length_app, ?length_insert; lia).
      by rewrite list_lookup_insert_ne by lia.
    + exists (g :: gs). split; [simpl; by rewrite Hgs|].
      exists o2. repeat split; try done.
    + exists (fuel0 + 3). intros fuel Hfuel.
      by apply (serialize_node h' f o2 g (length elifs) fuel0 fuel).
Qed.
End Chain.
End ParserFacts.

(** ** The shape of the stack is kept *)

Module StackFacts.
Import Text Lexer Parser Serialize Shape StoreTactics ParserFacts.

Lemma heap_le_refl h : heap_le h h.
Proof. split; [done|]. eauto. Qed.

Lemma heap_le_trans h1 h2 h3 : heap_le h1 h2 → heap_le h2 h3 → heap_le h1 h3.
Proof.
  intros [L1 H1] [L2 H2]. split; [lia|].
  intros a o Ha. destruct (H1 a o Ha) as (o' & Ha' & Hc').
  destruct (H2 a o' Ha') as (o'' & Ha'' & Hc''). exists o''.
  split; [done|congruence].
Qed.

Lemma heap_le_insert h a o o' :
  h !! a = Some o → cls o' = cls o → heap_le h (<[a := o']> h).
Proof.
  intros Ha Hc. split; [by rewrite length_insert|].
  intros b ob Hb. destruct (decide (a = b)) as [->|Hne].
  - exists o'. split; [|congruence].
    apply list_lookup_insert_eq. by eapply lookup_lt_Some.
  - exists ob. by rewrite list_lookup_insert_ne.
Qed.

Lemma heap_le_app h l : heap_le h (h ++ l).
Proof.
  split; [rewrite length_app; lia|].
  intros a o Ha. exists o. split; [|done]. by apply lookup_app_l_Some.
Qed.

Lemma class_at_mono h h' a c : heap_le h h' → class_at h a c → class_at h' a c.
Proof.
  intros [_ H] (o & Ha & Hc). destruct (H a o Ha) as (o' & Ha' & Hc').
  exists o'. split; [done|congruence].
Qed.

Lemma stack_ok_mono h h' st : heap_le h h' → stack_ok h st → stack_ok h' st.
Proof.
  intros Hle. induction st as [|a [|b st] IH]; [done| |].
  - simpl. by apply class_at_mono.
  - intros [Ha Hst]. split; [|by apply IH].
    destruct Ha; [left|right]; by eapply class_at_mono.
Qed.

Lemma stack_ok_tail h a st : stack_ok h (a :: st) → stack_ok h st.
Proof. destruct st as [|b st]; [done|]. by intros [_ ?]. Qed.

Lemma stack_ok_push h f a st :
  class_at h f CBlock ∨ class_at h f CIf →
  stack_ok h (a :: st) → stack_ok h (f :: a :: st).
Proof. by split. Qed.

Lemma keeps_stack_ret {A} (a : A) : keeps_stack (mret a).
Proof.
  intros σ r σ' H. injection H as <- <-. split; [done|apply heap_le_refl].
Qed.

Lemma keeps_stack_bind {A B} (m : M A) (f : A → M B) :
  keeps_stack m → (∀ a, keeps_stack (f a)) → keeps_stack (m ≫= f).
Proof.
  intros Hm Hf σ r σ' H.
  apply bind_inv in H as (a & σ1 & H1 & H2).
  destruct (Hm _ _ _ H1) as [S1 L1]. destruct (Hf a _ _ _ H2) as [S2 L2].
  split; [congruence|by eapply heap_le_trans].
Qed.

Lemma keeps_stack_get a : keeps_stack (get_item a).
Proof.
  intros σ r σ' H. unfold get_item in H.
  destruct (heap σ !! a); [|done]. injection H as <- <-.
  split; [done|apply heap_le_refl].
Qed.

Lemma keeps_stack_raise {A} e : keeps_stack (@raise A e).
Proof. by intros σ r σ' H. Qed.

(** Reading an item and writing back one of the same class. *)
Lemma keeps_stack_update {A} a (g : item → item) (k : M A) :
  (∀ o, cls (g o) = cls o) → keeps_stack k →
  keeps_stack (self ← get_item a; set_item a (g self);; k).
Proof.
  intros Hg Hk σ r σ' H.
  apply bind_inv in H as (o & σ1 & H1 & H2).
  unfold get_item in H1. destruct (heap σ !! a) eqn:Ha; [|done].
  injection H1 as <- <-.
  apply bind_inv in H2 as ([] & σ2 & H2 & H3).
  injection H2 as <-. destruct (Hk _ _ _ H3) as [S3 L3]. simpl in *.
  split; [done|].
  eapply heap_le_trans; [|exact L3]. by eapply heap_le_insert.
Qed.

Lemma keeps_stack_is_function v : keeps_stack (is_function v).
Proof.
  destruct v; try apply keeps_stack_ret.
  apply keeps_stack_bind; [apply keeps_stack_get|].
  intros o. apply keeps_stack_ret.
Qed.

Lemma keeps_stack_item_add a v : keeps_stack (item_add_content a v).
Proof.
  unfold item_add_content.
  apply (keeps_stack_update a (λ o, with_contents o (contents o ++ [v])));
    [done|apply keeps_stack_is_function].
Qed.

Lemma keeps_stack_if_add_else a b name : keeps_stack (if_add_else a b name).
Proof.
  unfold if_add_else. intros σ r σ' H.
  apply bind_inv in H as (o & σ1 & H1 & H2).
  destruct (keeps_stack_get _ _ _ _ H1) as [S1 L1].
  assert (heap σ !! a = Some o ∧ σ1 = σ) as [Ha ->].
  { unfold get_item in H1. destruct (heap σ !! a); [|done].
    by injection H1 as <- <-. }
  destruct (if_true_content o); [done|].
  destruct (if_false_content o); [|done].
  apply bind_inv in H2 as ([] & σ2 & H2 & H3).
  injection H2 as <-.
  assert (heap_le (heap σ) (<[a := with_cur_false o]> (heap σ))) as L2
      by (by eapply heap_le_insert).
  destruct (String.eqb name "Else").
  - injection H3 as <- <-. by split.
  - apply bind_inv in H3 as (self & σ3 & H3 & H4).
    apply bind_inv in H4 as (c & σ4 & H4 & H5).
    apply bind_inv in H5 as ([] & σ5 & H5 & H6).
    unfold get_item in H3, H4. simpl in H3.
    destruct (<[a := with_cur_false o]> (heap σ) !! a); [|done].
    injection H3 as <- <-. simpl in H4.
    destruct (<[a := with_cur_false o]> (heap σ) !! b) eqn:Hb; [|done].
    injection H4 as <- <-. injection H5 as <-. injection H6 as <- <-.
    simpl. split; [done|].
    eapply heap_le_trans; [exact L2|]. by eapply heap_le_insert.
Qed.

Lemma keeps_stack_if_add a v : keeps_stack (if_add_content a v).
Proof.
  unfold if_add_content. apply keeps_stack_bind.
  - destruct v; try apply keeps_stack_ret.
    apply keeps_stack_bind; [apply keeps_stack_get|]. intros c.
    destruct (_ && _); [apply keeps_stack_if_add_else|apply keeps_stack_ret].
  - intros [|]; [apply keeps_stack_ret|].
    apply (keeps_stack_update a
             (λ self, if cur_is_false self
                      then with_if_false self (if_false_content self ++ [v])
                      else with_if_true self (if_true_content self ++ [v]))).
    + intros o. by destruct (cur_is_false o).
    + apply keeps_stack_ret.
Qed.

Lemma keeps_stack_add_content a v : keeps_stack (add_content a v).
Proof.
  unfold add_content. apply keeps_stack_bind; [apply keeps_stack_get|].
  intros o. destruct (cls o);
    auto using keeps_stack_item_add, keeps_stack_if_add.
Qed.

Lemma keeps_stack_shape (m : M unit) : keeps_stack m → keeps_shape m.
Proof.
  intros Hm σ σ' Hg H. destruct (Hm _ _ _ H) as [S L].
  split; [|done]. unfold good. rewrite S. by eapply stack_ok_mono.
Qed.

Lemma keeps_shape_bind (m : M unit) (k : M unit) :
  keeps_shape m → keeps_shape k → keeps_shape (m;; k).
Proof.
  intros Hm Hk σ σ' Hg H.
  apply bind_inv in H as ([] & σ1 & H1 & H2).
  destruct (Hm _ _ Hg H1) as [G1 L1]. destruct (Hk _ _ G1 H2) as [G2 L2].
  split; [done|by eapply heap_le_trans].
Qed.

Lemma keeps_stack_add_to_current v : keeps_stack (add_to_current v).
Proof.
  unfold add_to_current. apply keeps_stack_bind.
  - intros σ r σ' H. unfold current in H. destruct (stack σ) eqn:E; [done|].
    mpure H; injection H as <- <-. split; [done|apply heap_le_refl].
  - intros a. apply keeps_stack_bind; [apply keeps_stack_add_content|].
    intros _. apply keeps_stack_ret.
Qed.

Lemma repeat_pop_inv n : ∀ σ σ',
  repeatM n pop σ = Ok ((), σ') →
  heap σ' = heap σ ∧ stack σ' = drop n (stack σ).
Proof.
  induction n as [|n IH]; intros σ σ' H.
  - mpure H; injection H as <-. by rewrite drop_0.
  - simpl in H. apply bind_inv in H as ([] & σ1 & H1 & H2).
    unfold pop in H1. destruct (stack σ) as [|a st] eqn:E; [done|].
    mpure H1; injection H1 as <-. destruct (IH _ _ H2) as [Hh Hs]. by simpl in *.
Qed.

Lemma stack_ok_drop h n : ∀ st, stack_ok h st → stack_ok h (drop n st).
Proof.
  induction n as [|n IH]; intros st Hst; [by rewrite drop_0|].
  destruct st as [|a st]; [done|]. simpl. apply IH.
  by eapply stack_ok_tail.
Qed.

Lemma keeps_shape_close : keeps_shape handle_func_block_close.
Proof.
  intros σ σ' Hg H. unfold handle_func_block_close in H.
  apply bind_inv in H as (a & σ1 & H1 & H2).
  unfold current in H1. destruct (stack σ) eqn:E; [done|].
  mpure H1; injection H1 as <- <-.
  apply bind_inv in H2 as (o & σ2 & H2 & H3).
  unfold get_item in H2. destruct (heap σ !! _); [|done].
  mpure H2; injection H2 as <- <-.
  destruct (repeat_pop_inv _ _ _ H3) as [Hh Hs].
  unfold good. rewrite Hh, Hs. split; [|apply heap_le_refl].
  by apply stack_ok_drop.
Qed.

Lemma keeps_shape_ensure_root : keeps_shape ensure_root.
Proof.
  intros σ σ' Hg H. unfold ensure_root in H.
  apply bind_inv in H as (st & σ1 & H1 & H2).
  mpure H1; injection H1 as <- <-. destruct (stack σ) eqn:E.
  - apply bind_inv in H2 as (a & σ2 & H2 & H3).
    mpure H2; injection H2 as <- <-. mpure H3; injection H3 as <-.
    split; [|apply heap_le_app].
    unfold good. simpl. rewrite E. exists new_item.
    by rewrite lookup_app_r, Nat.sub_diag by lia.
  - mpure H2; injection H2 as <-. split; [done|apply heap_le_refl].
Qed.

(** An [Else] added to a conditional is not pushed. *)
Lemma add_else_returns_false σ a o f c r σ' :
  heap σ !! a = Some o → cls o = CIf →
  heap σ !! f = Some c → is_function_class (cls c) = true →
  func_name c = "Else" →
  add_content a (VItem f) σ = Ok (r, σ') → r = false.
Proof.
  intros Ha Hc Hf Hfun Hname H. destruct σ as [h st]. simpl in *.
  unfold add_content in H.
  rewrite (bind_ok _ _ _ _ _ (get_item_ok _ _ _ _ Ha)), Hc in H.
  unfold if_add_content in H.
  apply bind_inv in H as (returned & σ1 & H1 & H2).
  rewrite (bind_ok _ _ _ _ _ (get_item_ok _ _ _ _ Hf)) in H1.
  rewrite Hfun, Hname in H1. simpl in H1.
  unfold if_add_else in H1.
  rewrite (bind_ok _ _ _ _ _ (get_item_ok _ _ _ _ Ha)) in H1.
  destruct (if_true_content o); [done|].
  destruct (if_false_content o); [|done].
  apply bind_inv in H1 as ([] & σ2 & _ & H1). simpl in H1.
  mpure H1; injection H1 as <- <-. by mpure H2; injection H2 as <-.
Qed.

Lemma validate_inv f σ σ' :
  validate f σ = Ok ((), σ') →
  σ' = σ
  ∧ ∀ c, heap σ !! f = Some c → cls c = CElse →
         ∃ a st o, stack σ = a :: st ∧ heap σ !! a = Some o ∧ cls o = CIf.
Proof.
  intros H. unfold validate in H.
  apply bind_inv in H as (func & σ1 & H1 & H2).
  unfold get_item in H1. destruct (heap σ !! f) as [c|] eqn:Hf; [|done].
  mpure H1; injection H1 as <- <-.
  assert (∀ (k : bool → M unit) σ2,
            (current_is_if ≫= k) σ = Ok ((), σ2) →
            ∃ b, k b σ = Ok ((), σ2)
                 ∧ (b = true →
                    ∃ a st o, stack σ = a :: st ∧ heap σ !! a = Some o
                              ∧ cls o = CIf)) as Hcur.
  { intros k σ2 Hk. apply bind_inv in Hk as (b & σ3 & Hk1 & Hk2).
    unfold current_is_if in Hk1.
    apply bind_inv in Hk1 as (a & σ4 & Hk1 & Hk3).
    unfold current in Hk1. destruct (stack σ) as [|a' st] eqn:E; [done|].
    mpure Hk1; injection Hk1 as <- <-.
    apply bind_inv in Hk3 as (o & σ5 & Hk3 & Hk4).
    unfold get_item in Hk3. destruct (heap σ !! a') as [o'|] eqn:Ha; [|done].
    mpure Hk3; injection Hk3 as <- <-. mpure Hk4; injection Hk4 as <- <-.
    exists (match cls o' with CIf => true | _ => false end).
    split; [done|]. intros Hb. exists a', st, o'.
    repeat split; try done. by destruct (cls o'). }
  destruct (cls c) eqn:Hc.
  - mpure H2; injection H2 as <-. split; [done|]. intros c' [= <-]. congruence.
  - mpure H2; injection H2 as <-. split; [done|]. intros c' [= <-]. congruence.
  - destruct (is_elseif c).
    + apply Hcur in H2 as ([|] & H2 & _); [|done].
      mpure H2; injection H2 as <-. split; [done|]. intros c' [= <-]. congruence.
    + mpure H2; injection H2 as <-. split; [done|]. intros c' [= <-]. congruence.
  - apply Hcur in H2 as ([|] & H2 & Hif); [|done].
    mpure H2; injection H2 as <-. split; [done|]. intros c' _ _. by apply Hif.
Qed.

Lemma function_class_else name :
  function_class name = CElse → name = "Else".
Proof.
  unfold function_class.
  destruct (String.eqb name "If"); [done|].
  destruct (String.eqb name "ElseIf"); [done|].
  destruct (String.eqb_spec name "Else"); done.
Qed.

(** [_handle_func] with parameters whose parsing leaves the stack as it
    is. *)
Lemma keeps_shape_handle_func name np func_open :
  keeps_stack np → keeps_shape (handle_func name np func_open).
Proof.
  intros Hnp σ σ' Hg H. unfold handle_func in H.
  apply bind_inv in H as (a & σ0 & H0 & H).
  unfold current in H0. destruct (stack σ) as [|a' st] eqn:Hst; [done|].
  mpure H0; injection H0 as <- <-.
  apply bind_inv in H as (ps & σ1 & H1 & H).
  destruct (Hnp _ _ _ H1) as [S1 L1].
  apply bind_inv in H as (f & σ2 & H2 & H).
  mpure H2; injection H2 as <- <-.
  set (nf := new_function (function_class name) name ps) in *.
  set (σ2 := PState (heap σ1 ++ [nf]) (stack σ1)) in *.
  apply bind_inv in H as ([] & σ3 & H3 & H).
  apply validate_inv in H3 as [-> Hval].
  apply bind_inv in H as (can_push & σ4 & H4 & H).
  destruct (keeps_stack_add_content _ _ _ _ _ H4) as [S4 L4].
  assert (heap σ2 !! length (heap σ1) = Some nf) as Hf
      by (simpl; by rewrite lookup_app_r, Nat.sub_diag by lia).
  assert (heap_le (heap σ) (heap σ4)) as Hle.
  { eapply heap_le_trans; [exact L1|].
    eapply heap_le_trans; [|exact L4]. apply heap_le_app. }
  assert (stack σ4 = a' :: st) as Hst4 by (rewrite S4; simpl; congruence).
  assert (good σ4) as G4.
  { unfold good. rewrite Hst4, <- Hst. by eapply stack_ok_mono. }
  destruct (can_push && func_open) eqn:Hpush.
  - mpure H; injection H as <-. split; [|done].
    unfold good. simpl. rewrite Hst4.
    apply stack_ok_push; [|by rewrite <- Hst4].
    apply andb_true_iff in Hpush as [-> _].
    destruct (function_class name) eqn:Hcls.
    + unfold function_class in Hcls.
      by repeat match type of Hcls with
                | (if ?b then _ else _) = _ => destruct b
                end.
    + left. eapply class_at_mono; [exact L4|]. by exists nf.
    + right. eapply class_at_mono; [exact L4|]. by exists nf.
    + (* an Else: validated against a conditional, hence not pushed *)
      destruct (Hval nf Hf eq_refl) as (a0 & st0 & o0 & Hs0 & Ha0 & Hc0).
      simpl in Hs0. rewrite S1, Hst in Hs0. injection Hs0 as <- <-.
      apply function_class_else in Hcls.
      by pose proof (add_else_returns_false _ _ _ _ _ _ _ Ha0 Hc0 Hf
                       eq_refl Hcls H4).
  - by mpure H; injection H as <-.
Qed.

Section WithState.
Variable collapse_variables : list value → value.

Lemma keeps_stack_own_line run :
  keeps_shape run → keeps_stack (own_line collapse_variables run).
Proof.
  intros Hrun σ r σ' H. unfold own_line in H.
  apply bind_inv in H as (outer & σ1 & H1 & H). mpure H1; injection H1 as <- <-.
  apply bind_inv in H as ([] & σ2 & H2 & H). mpure H2; injection H2 as <-.
  apply bind_inv in H as ([] & σ3 & H3 & H).
  apply keeps_shape_ensure_root in H3 as [G3 L3]; [|done].
  apply bind_inv in H as ([] & σ4 & H4 & H).
  apply Hrun in H4 as [G4 L4]; [|done].
  apply bind_inv in H as (v & σ5 & H5 & H).
  assert (σ5 = σ4) as ->.
  { unfold line_result in H5.
    apply bind_inv in H5 as (a & σ6 & H6 & H5).
    unfold current in H6. destruct (stack σ4); [done|].
    mpure H6; injection H6 as <- <-.
    apply bind_inv in H5 as (o & σ7 & H7 & H5).
    unfold get_item in H7. destruct (heap σ4 !! _) as [o0|]; [|done].
    mpure H7; injection H7 as <- <-.
    destruct (contents o0) as [|? [|? ?]]; [done|..];
      by mpure H5; injection H5 as <- <-. }
  apply bind_inv in H as ([] & σ6 & H6 & H). mpure H6; injection H6 as <-.
  mpure H; injection H as <- <-. simpl in *. split; [done|].
  by eapply heap_le_trans.
Qed.

Lemma keeps_stack_parse_params lines :
  Forall (λ l, keeps_shape (run_events collapse_variables l)) lines →
  keeps_stack (parse_params collapse_variables lines).
Proof.
  induction 1 as [|l lines Hl _ IH]; [apply keeps_stack_ret|].
  simpl. apply keeps_stack_bind; [by apply keeps_stack_own_line|].
  intros v. apply keeps_stack_bind; [done|].
  intros vs. apply keeps_stack_ret.
Qed.

Lemma keeps_shape_ret : keeps_shape (mret ()).
Proof. apply keeps_stack_shape, keeps_stack_ret. Qed.

Lemma keeps_shape_run_events l :
  Forall (λ e, keeps_shape (run_event collapse_variables e)) l →
  keeps_shape (run_events collapse_variables l).
Proof.
  induction 1 as [|e l He _ IH]; [apply keeps_shape_ret|].
  by apply keeps_shape_bind.
Qed.

Lemma keeps_shape_run_event e :
  keeps_shape (run_event collapse_variables e).
Proof.
  induction e as [s|name ps o IH| | | |] using event_nested_ind.
  - apply keeps_stack_shape, keeps_stack_add_to_current.
  - rewrite run_event_func. apply keeps_shape_handle_func.
    destruct ps as [lines|]; [|apply keeps_stack_ret].
    apply keeps_stack_parse_params.
    eapply Forall_impl; [exact IH|].
    intros l Hl. by apply keeps_shape_run_events.
  - apply keeps_shape_close.
  - apply keeps_stack_shape, keeps_stack_add_to_current.
  - apply keeps_stack_shape, keeps_stack_add_to_current.
  - by intros σ σ' _ H.
Qed.

Lemma keeps_shape_parse_line l :
  keeps_shape (_parse_line collapse_variables l).
Proof.
  apply keeps_shape_bind; [apply keeps_shape_ensure_root|].
  apply keeps_shape_run_events, Forall_forall.
  intros e _. apply keeps_shape_run_event.
Qed.

Lemma keeps_shape_parse_lines lines :
  keeps_shape (parse_lines collapse_variables lines).
Proof.
  induction lines as [|l lines IH]; [apply keeps_shape_ret|].
  apply keeps_shape_bind; [apply keeps_shape_parse_line|done].
Qed.
End WithState.

Lemma stack_ok_no_else h st a :
  stack_ok h st → a ∈ st → ∃ o, h !! a = Some o ∧ cls o ≠ CElse.
Proof.
  induction st as [|b [|c st] IH]; intros Hst Ha.
  - by apply elem_of_nil in Ha.
  - apply list_elem_of_singleton in Ha as ->.
    destruct Hst as (o & Ho & Hc). exists o. split; [done|congruence].
  - destruct Hst as [Hb Hst].
    apply elem_of_cons in Ha as [->|Ha]; [|by apply IH].
    destruct Hb as [(o & Ho & Hc)|(o & Ho & Hc)]; exists o;
      (split; [done|congruence]).
Qed.
End StackFacts.

(** ** The inline language: the properties of the specification *)

Module StringParserProps.
Import Text Lexer Parser Serialize StringParser Shape ParserFacts StackFacts.

Lemma id_transparent :
  transparent id_process_tree id_normalize_vars_list id_collapse_variables.
Proof.
  split; [done|split; [done|]].
  intros l Hl. unfold flat, id_collapse_variables.
  rewrite if_depth_list. by apply depth_of_list_flat.
Qed.



(** C2.  Normalizing a list of contents whose elements normalize to
    [l1], for which the template state gives back the list [l2] of class
    [k']: one element collapses to that element; more than one are
    wrapped in [Fn::Join] with the empty separator, unless the list is a
    [VarsStringsList], which is passed on as it is. *)
Theorem normalize_content_collapses
    process_tree normalize_vars_list fuel h k l l1 k' l2 :
  mapM (normalize_content process_tree normalize_vars_list fuel h) l
  = Ok l1 →
  normalize_vars_list (process_tree l1) = (k', l2) →
  ∃ r,
    normalize_content process_tree normalize_vars_list (S fuel) h (VList k l)
    = Ok r
    ∧ (∀ x, l2 = [x] → r = x)
    ∧ (1 < length l2 → k' ≠ VarsStringsList →
       r = VDict [("Fn::Join", VList PlainList [VStr ""; VList k' l2])])
    ∧ (1 < length l2 → k' = VarsStringsList →
       r = VList VarsStringsList l2).
Proof.
  intros Hl Hn. eexists. split.
  - by apply normalize_list.
  - unfold finalize. rewrite Hn. simpl.
    split; [by intros x ->|].
    destruct l2 as [|x [|y l2]]; simpl; split; intros; try lia.
    + by destruct k'.
    + by subst k'.
Qed.

Lemma normalize_content_collapses_witness :
  ∃ r,
    normalize_content id_process_tree id_normalize_vars_list 2 []
                      (VList PlainList [VStr "a"; VStr "b"])
    = Ok r
    ∧ (∀ x, [VStr "a"; VStr "b"] = [x] → r = x)
    ∧ (1 < length [VStr "a"; VStr "b"] → PlainList ≠ VarsStringsList →
       r = VDict [("Fn::Join",
                   VList PlainList
                         [VStr ""; VList PlainList [VStr "a"; VStr "b"]])])
    ∧ (1 < length [VStr "a"; VStr "b"] → PlainList = VarsStringsList →
       r = VList VarsStringsList [VStr "a"; VStr "b"]).
Proof.
  apply (normalize_content_collapses
           id_process_tree id_normalize_vars_list 1 [] PlainList
           [VStr "a"; VStr "b"] [VStr "a"; VStr "b"] PlainList
           [VStr "a"; VStr "b"]); reflexivity.
Defined.



(** C9.  [parse_string] on the empty text: [splitlines] gives no line,
    and reading the first one raises [IndexError]. *)
Theorem parse_string_empty
    process_tree normalize_vars_list collapse_variables :
  parse_string process_tree normalize_vars_list collapse_variables ""
  = Err IndexError.
Proof. reflexivity. Qed.


(** Blocks that are opened and not closed stay on the stack: after
    events that only add content or open blocks, the stack has grown by
    the number of blocks opened. *)
Lemma unclosed_opens_stack collapse_variables evs :
  ∀ h a st,
    is_Some (h !! a) → Forall opening evs →
    ∃ h' st',
      run_events collapse_variables evs (PState h (a :: st))
      = Ok ((), PState h' (st' ++ a :: st))
      ∧ length st' = count_opens evs.
Proof.
  induction evs as [|e evs IH]; intros h a st [o Ha] Hev.
  - by exists h, [].
  - apply Forall_cons in Hev as [He Hev]. rewrite run_events_cons.
    pose proof (lookup_lt_Some _ _ _ Ha) as Hlt.
    destruct He as [Hp|(name & ps & -> & Hps & HE & HEI)].
    + rewrite (bind_ok _ _ _ _ _
                 (run_plain_event collapse_variables e h st a o Ha Hp)).
      destruct (IH (<[a := append_content o (value_of e)]> h) a st)
        as (h' & st' & Hrun & Hlen); [|done|].
      { eexists. by apply list_lookup_insert_eq. }
      exists h', st'. split; [done|].
      unfold count_opens in *. simpl. by rewrite Hp.
    + destruct (handle_func_block collapse_variables name ps true h st a o
                  Ha Hps HE HEI) as [roots Hrun].
      rewrite (bind_ok _ _ _ _ _ Hrun).
      set (f := length (h ++ roots)).
      destruct (IH (<[a := append_content o (VItem f)]>
                      ((h ++ roots)
                         ++ [new_function (function_class name) name
                               (params_value collapse_variables ps)]))
                   f (a :: st))
        as (h' & st' & Hrun' & Hlen); [|done|].
      { apply lookup_lt_is_Some.
        rewrite length_insert, length_app. fold f. simpl. lia. }
      exists h', (st' ++ [f]). split.
      * replace ((st' ++ [f]) ++ a :: st) with (st' ++ f :: a :: st)
          by (by rewrite <- app_assoc).
        exact Hrun'.
      * rewrite length_app. unfold count_opens in *. simpl. lia.
Qed.

Lemma unclosed_opens_stack_witness :
  ∃ h' st',
    run_events id_collapse_variables
      [EFunc "If" (Some [[EText "a"]]) true; EText "x"]
      (PState [new_item] [0])
    = Ok ((), PState h' (st' ++ [0]))
    ∧ length st' = 1.
Proof.
  apply (unclosed_opens_stack id_collapse_variables
           [EFunc "If" (Some [[EText "a"]]) true; EText "x"]
           [new_item] 0 []).
  - by eexists.
  - apply Forall_cons. split.
    + right. exists "If", (Some [[EText "a"]]).
      split; [reflexivity|]. split; [|by split].
      simpl. repeat constructor; discriminate.
    + apply Forall_cons. split; [by left|apply List.Forall_nil].
Defined.



(** C4, where the code departs from it.  [IfBlockFunction.validate] reads
    [_is_elseif], which [add_content] sets only after the validation, so
    an [ElseIf] that is not inside a conditional is accepted and comes
    out as a conditional of its own.  And a second [Else] is refused by
    looking at the false branch: while that is still empty, an [Else]
    right after an [Else] is accepted. *)
Theorem elseif_without_if_accepted :
  parse_string id_process_tree id_normalize_vars_list id_collapse_variables
               "<% ElseIf (b) { %>x<% } %>"
  = Ok (VDict [("Fn::If", VList UncollapsibleList [VStr "b"; VStr "x"])])
  ∧ parse_string id_process_tree id_normalize_vars_list
                 id_collapse_variables
                 ("<% If (a) { %>x<% Else { %>" +:+ newline
                  +:+ "<% Else { %>y<% } %>")
    = Ok (VDict [("Fn::If",
                  VList UncollapsibleList [VStr "a"; VStr "x"; VStr "y"])]).
Proof. split; vm_compute; reflexivity. Qed.

(** The parts of C4 the code does follow, on examples: an [Else] outside
    a conditional, an [Else] before any true content, an [Else] after
    the false branch has content. *)
Example else_without_if :
  parse_string id_process_tree id_normalize_vars_list id_collapse_variables
               "<% Else { %>x<% } %>"
  = Err (ConstructorError "Found Else without a matching If").
Proof. vm_compute. reflexivity. Qed.

Example else_without_true_value :
  parse_string id_process_tree id_normalize_vars_list id_collapse_variables
               ("<% If (a) { %>" +:+ newline +:+ "<% Else { %>x<% } %>")
  = Err (ConstructorError
           ("Found Else without a " +:+ dquote +:+ "true" +:+ dquote
            +:+ " value in the If")).
Proof. vm_compute. reflexivity. Qed.

Example elseif_after_else :
  parse_string id_process_tree id_normalize_vars_list id_collapse_variables
               "<% If (a) { %>x<% Else { %>y<% ElseIf (b) { %>z<% } %>"
  = Err (ConstructorError "Found ElseIf after an Else").
Proof. vm_compute. reflexivity. Qed.

(** C10.  An [Else] met with a conditional [f] on top of the stack (that
    has a true branch and no false branch yet) is not pushed, with or
    without an opening brace: the stack is as before, [f] has switched
    to its false branch, the next content goes there, and the closing
    marker pops by the [pop_count] of [f].  And whatever is parsed, the
    stack keeps its shape: above the root item there are only block
    functions and conditionals, never an [ElseBlockFunction]. *)
Theorem else_is_never_pushed collapse_variables :
  (∀ ps func_open h st f o,
      h !! f = Some o → cls o = CIf →
      if_true_content o ≠ [] → if_false_content o = [] →
      plain_params ps →
      ∃ h',
        run_event collapse_variables (EFunc "Else" ps func_open)
                  (PState h (f :: st))
        = Ok ((), PState h' (f :: st))
        ∧ h' !! f = Some (with_cur_false o)
        ∧ (∀ e, plain e = true →
                run_event collapse_variables e (PState h' (f :: st))
                = Ok ((),
                      PState (<[f := with_if_false (with_cur_false o)
                                        [value_of e]]> h')
                             (f :: st)))
        ∧ (pop_count o ≤ S (length st) →
           run_event collapse_variables EClose (PState h' (f :: st))
           = Ok ((), PState h' (drop (pop_count o) (f :: st)))))
  ∧ (∀ lines σ σ',
        stack_ok (heap σ) (stack σ) →
        parse_lines collapse_variables lines σ = Ok ((), σ') →
        stack_ok (heap σ') (stack σ')
        ∧ ∀ a, a ∈ stack σ' →
               ∃ o, heap σ' !! a = Some o ∧ cls o ≠ CElse).
Proof.
  split.
  - intros ps func_open h st f o Hf Hc Ht Hfl Hp.
    destruct (handle_func_else collapse_variables ps func_open h st f o
                Hf Hp Hc Ht Hfl) as [roots Hrun].
    eexists. split; [exact Hrun|].
    set (h' := <[f := with_cur_false o]> _).
    assert (h' !! f = Some (with_cur_false o)) as Hf'.
    { apply list_lookup_insert_eq. rewrite !length_app.
      apply lookup_lt_Some in Hf. lia. }
    split; [done|split].
    + intros e He.
      rewrite (run_plain_event collapse_variables e h' st f _ Hf' He).
      unfold append_content. simpl. by rewrite Hc, Hfl.
    + intros Hpop.
      exact (close_ok collapse_variables h' st f (with_cur_false o) Hf' Hpop).
  - intros lines σ σ' Hok Hrun.
    destruct (keeps_shape_parse_lines collapse_variables lines σ σ' Hok Hrun)
      as [Hok' _].
    split; [done|]. intros a Ha. by eapply stack_ok_no_else.
Qed.

Lemma else_is_never_pushed_witness :
  (∃ h',
      run_event id_collapse_variables (EFunc "Else" None true)
        (PState [new_item;
                 Item CIf [] 1 "If" [VStr "a"] false [VStr "x"] [] false]
                [1; 0])
      = Ok ((), PState h' [1; 0]))
  ∧ stack_ok [Item CItem [VItem 1] 1 "" [] false [] [] false;
              Item CIf [] 1 "If" [] false [VStr "x"] [] false]
             [1; 0].
Proof.
  split.
  - destruct (proj1 (else_is_never_pushed id_collapse_variables)
                None true
                [new_item;
                 Item CIf [] 1 "If" [VStr "a"] false [VStr "x"] [] false]
                [0] 1
                (Item CIf [] 1 "If" [VStr "a"] false [VStr "x"] [] false)
                eq_refl eq_refl ltac:(discriminate) eq_refl I)
      as (h' & Hrun & _).
    by exists h'.
  - exact (proj1 (proj2 (else_is_never_pushed id_collapse_variables)
                    [[EFunc "If" None true; EText "x"]]
                    (PState [] [])
                    (PState
                       [Item CItem [VItem 1] 1 "" [] false [] [] false;
                        Item CIf [] 1 "If" [] false [VStr "x"] [] false]
                       [1; 0])
                    I eq_refl)).
Defined.
End StringParserProps.

(** ** The tests of the repository

    The texts of [TemplateReaderTests] that use no variable, as the reader
    hands them to [parse_string], with the results the tests expect. *)

Module Regression.
Import Text Parser Serialize StringParser Shape.

#[local] Abbreviation parse :=
  (parse_string id_process_tree id_normalize_vars_list
                id_collapse_variables).
#[local] Abbreviation fn_if args :=
  (VDict [("Fn::If", VList UncollapsibleList args)]).
#[local] Abbreviation fn_join parts :=
  (VDict [("Fn::Join", VList PlainList [VStr ""; VList PlainList parts])]).
#[local] Abbreviation ref name := (VDict [("Ref", VStr name)]).

Example splitlines_empty : splitlines "" = [].
Proof. reflexivity. Qed.

Example splitlines_keepends :
  splitlines ("ab" +:+ newline +:+ "c" +:+ String (ascii_of_nat 13) newline
              +:+ "d")
  = ["ab" +:+ newline; "c" +:+ String (ascii_of_nat 13) newline; "d"].
Proof. vm_compute. reflexivity. Qed.

Example strip_base64 : strip ("  __base64__" +:+ newline) = "__base64__".
Proof. vm_compute. reflexivity. Qed.


Example test_embed_refs : parse "@@MyRef" = Ok (ref "MyRef").
Proof. vm_compute. reflexivity. Qed.

Example test_embed_refs_with_braces : parse "@@{MyRef}" = Ok (ref "MyRef").
Proof. vm_compute. reflexivity. Qed.

Example test_embed_funcs :
  parse "<% FindInMap(a, @@b, c) %>"
  = Ok (VDict [("Fn::FindInMap",
                VList UncollapsibleList [VStr "a"; ref "b"; VStr "c"])]).
Proof. vm_compute. reflexivity. Qed.

Example test_embed_funcs_with_if :
  parse ("<% If (a) { %>" +:+ newline +:+ "the line." +:+ newline
         +:+ "<% } %>")
  = Ok (fn_if [VStr "a"; VStr ("the line." +:+ newline)]).
Proof. vm_compute. reflexivity. Qed.

Example test_embed_funcs_with_if_refs_in_params :
  parse ("<% If (@@MyResource) { %>" +:+ newline +:+ "the line." +:+ newline
         +:+ "<% } %>")
  = Ok (fn_if [ref "MyResource"; VStr ("the line." +:+ newline)]).
Proof. vm_compute. reflexivity. Qed.

Example test_embed_funcs_with_if_refs_in_content :
  parse ("<% If (a) { %>" +:+ newline +:+ "this is @@MyResource." +:+ newline
         +:+ "<% } %>")
  = Ok (fn_if [VStr "a";
               fn_join [VStr "this is "; ref "MyResource";
                        VStr ("." +:+ newline)]]).
Proof. vm_compute. reflexivity. Qed.

Example test_embed_funcs_with_if_multiple_lines :
  parse ("<% If (a) { %>" +:+ newline +:+ "a couple of" +:+ newline
         +:+ "lines of content." +:+ newline +:+ "<% } %>")
  = Ok (fn_if [VStr "a";
               fn_join [VStr ("a couple of" +:+ newline);
                        VStr ("lines of content." +:+ newline)]]).
Proof. vm_compute. reflexivity. Qed.

Example test_embed_funcs_with_if_else :
  parse ("<% If (a) { %>" +:+ newline +:+ "true_value" +:+ newline
         +:+ "<% Else { %>" +:+ newline +:+ "false_value" +:+ newline
         +:+ "<% } %>")
  = Ok (fn_if [VStr "a"; VStr ("true_value" +:+ newline);
               VStr ("false_value" +:+ newline)]).
Proof. vm_compute. reflexivity. Qed.

Example test_embed_funcs_with_if_elseif :
  parse ("<% If (a) { %>" +:+ newline +:+ "value1" +:+ newline
         +:+ "<% ElseIf (b) { %>" +:+ newline +:+ "value2" +:+ newline
         +:+ "<% } %>")
  = Ok (fn_if [VStr "a"; VStr ("value1" +:+ newline);
               fn_if [VStr "b"; VStr ("value2" +:+ newline)]]).
Proof. vm_compute. reflexivity. Qed.

Example test_embed_funcs_with_if_elseif_else :
  parse ("<% If (a) { %>" +:+ newline +:+ "value1" +:+ newline
         +:+ "<% ElseIf (b) { %>" +:+ newline +:+ "value2" +:+ newline
         +:+ "<% Else { %>" +:+ newline +:+ "value3" +:+ newline
         +:+ "<% } %>")
  = Ok (fn_if [VStr "a"; VStr ("value1" +:+ newline);
               fn_if [VStr "b"; VStr ("value2" +:+ newline);
                      VStr ("value3" +:+ newline)]]).
Proof. vm_compute. reflexivity. Qed.

(** The chain of [test_embed_funcs_with_if_elseif_elseif_else], from the
    text to the serialized value: two [ElseIf] and an [Else] closed by one
    marker give three [Fn::If], each in the false branch of the one
    before. *)
Example test_embed_funcs_with_if_elseif_elseif_else :
  parse ("<% If (a) { %>" +:+ newline +:+ "value1" +:+ newline
         +:+ "<% ElseIf (b) { %>" +:+ newline +:+ "value2" +:+ newline
         +:+ "<% ElseIf (c) { %>" +:+ newline +:+ "value3" +:+ newline
         +:+ "<% Else { %>" +:+ newline +:+ "value4" +:+ newline
         +:+ "<% } %>")
  = Ok (fn_if [VStr "a"; VStr ("value1" +:+ newline);
               fn_if [VStr "b"; VStr ("value2" +:+ newline);
                      fn_if [VStr "c"; VStr ("value3" +:+ newline);
                             VStr ("value4" +:+ newline)]]]).
Proof. vm_compute. reflexivity. Qed.

Example test_embed_funcs_with_if_nested :
  parse ("<% If (a) { %>" +:+ newline +:+ "Line 1." +:+ newline
         +:+ "<%   If (b) { %>" +:+ newline +:+ "Line 2." +:+ newline
         +:+ "<%   } %>" +:+ newline +:+ "Line 3." +:+ newline
         +:+ "<% } %>")
  = Ok (fn_if [VStr "a";
               fn_join [VStr ("Line 1." +:+ newline);
                        fn_if [VStr "b"; VStr ("Line 2." +:+ newline)];
                        VStr ("Line 3." +:+ newline)]]).
Proof. vm_compute. reflexivity. Qed.

Example test_process_strings_refs :
  parse "foo - @@Bar - baz"
  = Ok (fn_join [VStr "foo - "; ref "Bar"; VStr " - baz"]).
Proof. vm_compute. reflexivity. Qed.

Example test_process_strings_funcs :
  parse "foo - <% FindInMap(a, @@b, c) %> - baz"
  = Ok (fn_join [VStr "foo - ";
                 VDict [("Fn::FindInMap",
                         VList UncollapsibleList
                               [VStr "a"; ref "b"; VStr "c"])];
                 VStr " - baz"]).
Proof. vm_compute. reflexivity. Qed.

Example test_process_multiline_strings :
  parse ("This is line one." +:+ newline +:+ "This is line two." +:+ newline)
  = Ok (fn_join [VStr ("This is line one." +:+ newline);
                 VStr ("This is line two." +:+ newline)]).
Proof. vm_compute. reflexivity. Qed.

Example test_process_base64_multiline_strings :
  parse ("__base64__" +:+ newline +:+ "This is line one." +:+ newline
         +:+ "This is line two." +:+ newline)
  = Ok (VDict [("Fn::Base64",
                fn_join [VStr ("This is line one." +:+ newline);
                         VStr ("This is line two." +:+ newline)])]).
Proof. vm_compute. reflexivity. Qed.
End Regression.

(** ** Mappings: lookups after updates *)

Module DictFacts.
Import Dict.

Lemma eqb_refl k : String.eqb k k = true.
Proof. apply String.eqb_refl. Qed.

Lemma eqb_ne k k' : k ≠ k' → String.eqb k k' = false.
Proof. by intros ?%String.eqb_neq. Qed.

Lemma get_set_eq k v d : get k (set k v d) = Some v.
Proof.
  induction d as [|[k' v'] d IH]; simpl.
  - by rewrite eqb_refl.
  - destruct (String.eqb k k') eqn:E; simpl; [by rewrite eqb_refl|].
    by rewrite E.
Qed.

Lemma get_set_ne k k' v d : k ≠ k' → get k' (set k v d) = get k' d.
Proof.
  intros Hne. induction d as [|[k0 v0] d IH]; simpl.
  - rewrite eqb_ne; [done|congruence].
  - destruct (String.eqb_spec k k0) as [->|Hk]; simpl.
    + by rewrite !eqb_ne by congruence.
    + by rewrite IH.
Qed.

Lemma get_del_eq k d : get k (del k d) = None.
Proof.
  induction d as [|[k' v'] d IH]; [done|]. simpl.
  destruct (String.eqb k k') eqn:E; [done|]. simpl. by rewrite E.
Qed.

Lemma get_del_ne k k' d : k ≠ k' → get k' (del k d) = get k' d.
Proof.
  intros Hne. induction d as [|[k0 v0] d IH]; [done|]. simpl.
  destruct (String.eqb_spec k k0) as [->|Hk]; simpl.
  - rewrite IH. by rewrite eqb_ne by congruence.
  - by rewrite IH.
Qed.

Lemma del_absent k d : get k d = None → del k d = d.
Proof.
  induction d as [|[k' v'] d IH]; [done|]. simpl.
  destruct (String.eqb k k'); [done|]. intros H. by rewrite IH.
Qed.

Lemma get_update k d d2 :
  get k (update d d2)
  = match get k (update [] d2) with
    | Some v => Some v
    | None => get k d
    end.
Proof.
  revert d. induction d2 as [|[k2 v2] d2 IH]; intros d; [done|].
  simpl. rewrite IH, (IH [(k2, v2)]).
  destruct (get k (update [] d2)); [done|].
  destruct (String.eqb_spec k2 k) as [->|Hne].
  - rewrite get_set_eq. simpl. by rewrite eqb_refl.
  - rewrite get_set_ne by done. simpl. by rewrite eqb_ne by congruence.
Qed.

Lemma get_not_key k d : k ∉ keys d → get k d = None.
Proof.
  induction d as [|[k' v'] d IH]; [done|]. simpl.
  intros Hk. apply not_elem_of_cons in Hk as [Hne Hk].
  rewrite eqb_ne by done. by apply IH.
Qed.

Lemma get_key k v d : get k d = Some v → k ∈ keys d.
Proof.
  induction d as [|[k' v'] d IH]; [done|]. simpl.
  destruct (String.eqb_spec k k') as [->|Hne].
  - intros _. apply elem_of_cons. by left.
  - intros H. apply elem_of_cons. right. by apply IH.
Qed.

Lemma elem_keys_set x k v d : x ∈ keys (set k v d) → x = k ∨ x ∈ keys d.
Proof.
  induction d as [|[k' v'] d IH]; simpl.
  - intros ->%list_elem_of_singleton. by left.
  - destruct (String.eqb_spec k k') as [->|Hne]; simpl.
    + intros [->|H]%elem_of_cons; [by left|].
      right. apply elem_of_cons. by right.
    + intros [->|H]%elem_of_cons.
      * right. apply elem_of_cons. by left.
      * destruct (IH H) as [->|H']; [by left|].
        right. apply elem_of_cons. by right.
Qed.

Lemma wf_set k v d : wf d → wf (set k v d).
Proof.
  unfold wf. induction d as [|[k' v'] d IH]; simpl.
  - intros _. apply NoDup_singleton.
  - intros [Hk Hd]%NoDup_cons.
    destruct (String.eqb_spec k k') as [->|Hne]; simpl.
    + by apply NoDup_cons.
    + apply NoDup_cons. split; [|by apply IH].
      intros [->|H]%elem_keys_set; done.
Qed.

Lemma get_update_wf k d d2 :
  wf d2 →
  get k (update d d2)
  = match get k d2 with
    | Some v => Some v
    | None => get k d
    end.
Proof.
  unfold wf. revert d. induction d2 as [|[k2 v2] d2 IH]; intros d; [done|].
  simpl. intros [Hk Hd]%NoDup_cons. rewrite IH by done.
  destruct (String.eqb_spec k k2) as [->|Hne].
  - by rewrite get_not_key, get_set_eq.
  - rewrite get_set_ne by done. done.
Qed.
End DictFacts.

(** ** The compiler: the properties of the specification *)

Module CompilerProps.
Import Serialize Compiler CompilerShape DictFacts.

Lemma get_required_set_eq k b d :
  get_required k (set_required k b d) = Some b.
Proof.
  induction d as [|[k' b'] d IH]; simpl.
  - by rewrite eqb_refl.
  - destruct (String.eqb k k') eqn:E; simpl; [by rewrite eqb_refl|].
    by rewrite E.
Qed.

Lemma get_required_set_ne k k' b d :
  k ≠ k' → get_required k' (set_required k b d) = get_required k' d.
Proof.
  intros Hne. induction d as [|[k0 b0] d IH]; simpl.
  - rewrite eqb_ne; [done|congruence].
  - destruct (String.eqb_spec k k0) as [->|Hk]; simpl.
    + by rewrite !eqb_ne by congruence.
    + by rewrite IH.
Qed.

Lemma post_process_param_inv name param lookups required param' lookups' required' :
  post_process_param name param lookups required
  = Ok (param', lookups', required') →
  ∃ p s,
    param = VDict p ∧ param' = VDict (stripped p)
    ∧ required_text p = Some s
    ∧ lookups' = lookups_after name p lookups
    ∧ required'
      = set_required name (String.eqb (Text.lower s) "true") required.
Proof.
  unfold post_process_param. destruct param as [| | |p| |]; try done.
  rewrite get_del_ne by done.
  unfold required_text, lookups_after, stripped.
  destruct (Dict.get "Required" p) as [[| s | | | |]|] eqn:Hr; try done.
  - intros [= <- <- <-]. exists p, s. rewrite ?Hr.
    repeat split; try done.
    by destruct (Dict.get "LookupFromStack" p).
  - intros [= <- <- <-]. exists p, "true". rewrite ?Hr.
    repeat split; try done.
    by destruct (Dict.get "LookupFromStack" p).
Qed.

Lemma lookups_after_ne name name' p lookups :
  name ≠ name' →
  Dict.get name' (lookups_after name p lookups) = Dict.get name' lookups.
Proof.
  intros Hne. unfold lookups_after.
  destruct (Dict.get "LookupFromStack" p) as [v|]; [|done].
  destruct (truthy v); [|done]. by apply get_set_ne.
Qed.

Lemma post_process_entries_spec params :
  ∀ lookups required params' lookups' required',
    Dict.wf params →
    post_process_entries params lookups required
    = Ok (params', lookups', required') →
    Dict.keys params' = Dict.keys params
    ∧ (∀ name, name ∉ Dict.keys params →
               Dict.get name lookups' = Dict.get name lookups
               ∧ get_required name required' = get_required name required)
    ∧ ∀ name param,
        Dict.get name params = Some param →
        ∃ p s,
          param = VDict p
          ∧ Dict.get name params' = Some (VDict (stripped p))
          ∧ required_text p = Some s
          ∧ get_required name required'
            = Some (String.eqb (Text.lower s) "true")
          ∧ Dict.get name lookups'
            = Dict.get name (lookups_after name p lookups).
Proof.
  induction params as [|[k v] params IH];
    intros lookups required params' lookups' required' Hwf H.
  - injection H as <- <- <-. repeat split; done.
  - simpl in H.
    destruct (post_process_param k v lookups required)
      as [[[v' l1] r1]|] eqn:E1; [|done].
    simpl in H.
    destruct (post_process_entries params l1 r1)
      as [[[ps' l2] r2]|] eqn:E2; [|done].
    injection H as <- <- <-.
    apply NoDup_cons in Hwf as [Hk Hwf].
    destruct (IH _ _ _ _ _ Hwf E2) as (Hkeys & Hout & Hin).
    apply post_process_param_inv in E1
      as (p & s & -> & -> & Hs & -> & ->).
    split; [simpl; by rewrite Hkeys|]. split.
    + intros name Hname. simpl in Hname.
      apply not_elem_of_cons in Hname as [Hne Hname].
      destruct (Hout name Hname) as [-> ->].
      by rewrite lookups_after_ne, get_required_set_ne.
    + intros name param Hget. simpl in Hget.
      destruct (String.eqb_spec name k) as [->|Hne].
      * injection Hget as <-. exists p, s.
        destruct (Hout k Hk) as [-> ->].
        simpl. rewrite eqb_refl, get_required_set_eq. done.
      * destruct (Hin name param Hget) as (p' & s' & -> & Hg & Hs' & Hr & Hl).
        exists p', s'. simpl. rewrite eqb_ne by done.
        repeat split; try done.
        rewrite Hl. unfold lookups_after at 1 3.
        destruct (Dict.get "LookupFromStack" p') as [x|];
          [destruct (truthy x)|].
        -- by rewrite !get_set_eq.
        -- by apply lookups_after_ne.
        -- by apply lookups_after_ne.
Qed.

(** *** The keys of the synthesized outputs *)

Lemma chars_app s1 s2 :
  Text.chars (s1 +:+ s2) = Text.chars s1 ++ Text.chars s2.
Proof. induction s1 as [|c s1 IH]; [done|]. simpl. by rewrite <- IH. Qed.

Lemma chars_inj s1 s2 : Text.chars s1 = Text.chars s2 → s1 = s2.
Proof.
  intros H. rewrite <- (string_of_list_ascii_of_string s1),
                     <- (string_of_list_ascii_of_string s2).
  unfold Text.chars in H. by rewrite H.
Qed.

Lemma key_suffix_inj n1 n2 s1 s2 :
  is_suffix s1 → is_suffix s2 →
  "CloudPuff" +:+ n1 +:+ s1 = "CloudPuff" +:+ n2 +:+ s2 →
  n1 = n2 ∧ s1 = s2.
Proof.
  intros H1 H2 H. apply (inj (String.app "CloudPuff")) in H.
  apply (f_equal Text.chars) in H. rewrite !chars_app in H.
  assert (∀ t, Text.chars n1 ++ t = Text.chars n2 ++ t → n1 = n2) as Hsame.
  { intros t Ht. apply chars_inj. by eapply app_inv_tail. }
  apply (f_equal (@rev ascii)) in H as Hrev. rewrite !rev_app_distr in Hrev.
  destruct H1 as [-> | [-> | ->]], H2 as [-> | [-> | ->]];
    first [split; [exact (Hsame _ H)|reflexivity]
          | (exfalso; simpl in Hrev; discriminate Hrev)].
Qed.

Lemma own_key_inj n1 n2 k : own_key n1 k → own_key n2 k → n1 = n2.
Proof.
  unfold own_key, instance_id_key_of, name_format_key_of,
    previous_ami_key_of.
  intros [-> | [-> | ->]] [H|[H|H]];
    eapply key_suffix_inj in H as [? ?]; try done;
    unfold is_suffix; auto.
Qed.

Lemma keys_distinct name :
  instance_id_key_of name ≠ name_format_key_of name
  ∧ instance_id_key_of name ≠ previous_ami_key_of name
  ∧ name_format_key_of name ≠ previous_ami_key_of name.
Proof.
  unfold instance_id_key_of, name_format_key_of, previous_ami_key_of.
  repeat split; intros H;
    eapply key_suffix_inj in H as [_ ?]; try done;
    unfold is_suffix; auto.
Qed.

Lemma ami_step_spec info acc :
  let name := info_resource_name info in
  let acc' := (ami_step info acc).1 in
  (∀ k, ¬ own_key name k → Dict.get k acc' = Dict.get k acc)
  ∧ Dict.get (instance_id_key_of name) acc'
    = Some (output ("Instance ID for " +:+ name) (VDict [("Ref", VStr name)]))
  ∧ Dict.get (name_format_key_of name) acc'
    = Some (output ("Name format for the AMI for " +:+ name)
                   (name_format info))
  ∧ Dict.get (previous_ami_key_of name) acc'
    = match previous_ami info with
      | Some previous =>
          Some (output ("Previous AMI ID created for " +:+ name) previous)
      | None => Dict.get (previous_ami_key_of name) acc
      end
  ∧ (ami_step info acc).2
    = AmiOutput name (previous_ami_key_of name) (instance_id_key_of name)
                (name_format_key_of name).
Proof.
  intros name acc'. unfold acc', ami_step. fold name. cbn [fst snd].
  destruct (keys_distinct name) as (H1 & H2 & H3).
  split; [|split; [|split; [|split]]].
  - intros k Hk. unfold own_key in Hk.
    destruct (previous_ami info);
      by rewrite !get_set_ne by (intros <-; apply Hk; auto).
  - destruct (previous_ami info).
    + rewrite (get_set_ne (previous_ami_key_of name)) by congruence.
      rewrite (get_set_ne (name_format_key_of name)) by congruence.
      by rewrite get_set_eq.
    + rewrite (get_set_ne (name_format_key_of name)) by congruence.
      by rewrite get_set_eq.
  - destruct (previous_ami info).
    + rewrite (get_set_ne (previous_ami_key_of name)) by congruence.
      by rewrite get_set_eq.
    + by rewrite get_set_eq.
  - destruct (previous_ami info); [by rewrite get_set_eq|].
    by rewrite !get_set_ne by congruence.
  - done.
Qed.

Lemma ami_step_wf info acc : Dict.wf acc → Dict.wf (ami_step info acc).1.
Proof.
  intros Hwf. unfold ami_step. cbn [fst].
  destruct (previous_ami info); auto using wf_set.
Qed.

Lemma ami_steps_cons info l acc :
  ami_steps (info :: l) acc
  = ((ami_steps l (ami_step info acc).1).1,
     (ami_step info acc).2 :: (ami_steps l (ami_step info acc).1).2).
Proof.
  cbn [ami_steps]. destruct (ami_step info acc) as [acc1 o]. cbn [fst snd].
  by destruct (ami_steps l acc1).
Qed.

Lemma ami_steps_spec l :
  ∀ acc,
    NoDup (map info_resource_name l) → Dict.wf acc →
    Dict.wf (ami_steps l acc).1
    ∧ (∀ k, (∀ info, info ∈ l → ¬ own_key (info_resource_name info) k) →
            Dict.get k (ami_steps l acc).1 = Dict.get k acc)
    ∧ (ami_steps l acc).2 = map recorded l
    ∧ ∀ info, info ∈ l →
        let name := info_resource_name info in
        Dict.get (instance_id_key_of name) (ami_steps l acc).1
        = Some (output ("Instance ID for " +:+ name)
                       (VDict [("Ref", VStr name)]))
        ∧ Dict.get (name_format_key_of name) (ami_steps l acc).1
          = Some (output ("Name format for the AMI for " +:+ name)
                         (name_format info))
        ∧ Dict.get (previous_ami_key_of name) (ami_steps l acc).1
          = match previous_ami info with
            | Some previous =>
                Some (output ("Previous AMI ID created for " +:+ name)
                             previous)
            | None => Dict.get (previous_ami_key_of name) acc
            end.
Proof.
  induction l as [|info l IH]; intros acc Hnd Hwf.
  - simpl. repeat split; try done;
      match goal with H : _ ∈ [] |- _ => by apply elem_of_nil in H end.
  - simpl in Hnd. apply NoDup_cons in Hnd as [Hname Hnd].
    pose proof (ami_step_spec info acc) as Hstep.
    pose proof (ami_step_wf info acc Hwf) as Hwf1.
    rewrite ami_steps_cons.
    destruct (ami_step info acc) as [acc1 o] eqn:E1.
    cbn [fst snd] in Hstep, Hwf1 |- *.
    destruct Hstep as (Hother & Hid & Hfmt & Hprev & Ho).
    destruct (IH acc1 Hnd Hwf1) as (Hwf2 & Hout & Hrec & Hin).
    destruct (ami_steps l acc1) as [acc2 os] eqn:E2. cbn [fst snd] in *.
    assert (∀ k, own_key (info_resource_name info) k →
                 Dict.get k acc2 = Dict.get k acc1) as Hmine.
    { intros k Hk. apply Hout. intros info' Hin' Hk'.
      apply Hname. rewrite (own_key_inj _ _ _ Hk Hk').
      by apply list_elem_of_fmap_2. }
    split; [done|]. split; [|split].
    + intros k Hk. rewrite Hout.
      * apply Hother. apply Hk. apply elem_of_cons. by left.
      * intros info' Hin'. apply Hk. apply elem_of_cons. by right.
    + by rewrite Hrec, Ho.
    + intros info' [->|Hin']%elem_of_cons.
      * unfold own_key in Hmine.
        rewrite !Hmine by auto. done.
      * destruct (Hin info' Hin') as (H1 & H2 & H3).
        split; [done|split; [done|]]. rewrite H3.
        destruct (previous_ami info'); [done|].
        apply Hother. intros Hk. apply Hname.
        assert (own_key (info_resource_name info')
                        (previous_ami_key_of (info_resource_name info')))
          as Hk' by (unfold own_key; auto).
        rewrite (own_key_inj _ _ _ Hk Hk').
        by apply list_elem_of_fmap_2.
Qed.

Lemma scan_resource_name name v info :
  scan_resource name v = Ok (Some info) → info_resource_name info = name.
Proof.
  unfold scan_resource.
  destruct (skipped v) as [[|]|]; simpl; try done.
  destruct (py_getitem v "Metadata") as [m|]; simpl; try done.
  destruct (py_getitem m "CloudPuff") as [metadata|]; simpl; try done.
  destruct (py_in "AMINameFormat" metadata) as [[|]|]; simpl; try done.
  destruct (py_getitem metadata "AMINameFormat") as [format|]; simpl;
    try done.
  destruct (py_in "PreviousAMI" metadata) as [[|]|]; simpl; try done.
  - destruct (py_getitem metadata "PreviousAMI"); simpl; try done.
    by intros [= <-].
  - by intros [= <-].
Qed.

Lemma scan_resource_ami name r metadata format :
  ami_resource r metadata format →
  scan_resource name (VDict r)
  = Ok (Some (AmiInfo format name (Dict.get "PreviousAMI" metadata))).
Proof.
  intros (Htype & m & Hm & Hcp & Hfmt).
  unfold scan_resource, skipped, py_in, py_getitem, Dict.mem.
  rewrite Htype, Hm. simpl. rewrite Hcp. simpl. rewrite Hfmt. simpl.
  by destruct (Dict.get "PreviousAMI" metadata).
Qed.

Lemma scan_resources_spec resources :
  ∀ infos,
    Dict.wf resources → scan_resources resources = Ok infos →
    NoDup (map info_resource_name infos)
    ∧ (∀ info, info ∈ infos → info_resource_name info ∈ Dict.keys resources)
    ∧ ∀ name r metadata format,
        Dict.get name resources = Some (VDict r) →
        ami_resource r metadata format →
        AmiInfo format name (Dict.get "PreviousAMI" metadata) ∈ infos.
Proof.
  induction resources as [|[k v] resources IH]; intros infos Hwf H.
  - injection H as <-. split; [constructor|]. split; [|done].
    intros info Hin. by apply elem_of_nil in Hin.
  - simpl in H. apply NoDup_cons in Hwf as [Hk Hwf].
    destruct (scan_resource k v) as [found|] eqn:E1; [|done]. simpl in H.
    destruct (scan_resources resources) as [rest|] eqn:E2; [|done].
    simpl in H. injection H as <-.
    destruct (IH rest Hwf eq_refl) as (Hnd & Hkeys & Hami).
    split; [|split].
    + destruct found as [i|]; [|done]. simpl. apply NoDup_cons.
      split; [|done]. rewrite (scan_resource_name _ _ _ E1).
      intros (i' & Hi' & Hin)%list_elem_of_fmap.
      apply Hk. rewrite Hi'. by apply Hkeys.
    + intros info Hin. simpl. apply elem_of_cons.
      destruct found as [i|]; [|right; by apply Hkeys].
      apply elem_of_cons in Hin as [->|Hin]; [|right; by apply Hkeys].
      left. by apply (scan_resource_name _ _ _ E1).
    + intros name r metadata format Hget Hr. simpl in Hget.
      destruct (String.eqb_spec name k) as [->|Hne].
      * injection Hget as ->.
        rewrite (scan_resource_ami k r metadata format Hr) in E1.
        injection E1 as <-. apply elem_of_cons. by left.
      * destruct found; [apply elem_of_cons; right|]; by eapply Hami.
Qed.

(** *** Post-processing of the parameters *)




(** *** The outputs for the images *)

(** C8, as stated, fails for a resource without [PreviousAMI] in its
    metadata: two outputs are made, not three, while the name of the
    third is recorded all the same. *)
Lemma previous_ami_output_missing :
  ∃ c',
    _scan_cloudpuff_metadata
      (example_compiler true
         [("Resources",
           VDict (example_resources [("AMINameFormat", VStr "web")]));
          ("Outputs", VDict [])])
    = Ok c'
    ∧ Dict.keys (outputs_of (doc c'))
      = ["CloudPuffWebInstanceID"; "CloudPuffWebAMINameFormat"]
    ∧ ami_outputs c'
      = [AmiOutput "Web" "CloudPuffWebPreviousAMI" "CloudPuffWebInstanceID"
                   "CloudPuffWebAMINameFormat"].
Proof. eexists. split; [vm_compute; reflexivity|]. by split. Qed.

(** C8, amended.  When [for_amis] is off, [_scan_cloudpuff_metadata]
    changes nothing.  When it is on, every compute-instance resource
    whose [CloudPuff] metadata holds an [AMINameFormat] gets the
    instance-id and the name-format output, and the previous-image
    output if and only if the metadata holds a [PreviousAMI]; the names
    of all three outputs are recorded in [ami_outputs] in either case. *)
Theorem ami_outputs_synthesized c c' resources :
  Dict.get "Resources" (doc c) = Some (VDict resources) →
  Dict.wf resources →
  _scan_cloudpuff_metadata c = Ok c' →
  (for_amis c = false → c' = c)
  ∧ (for_amis c = true →
     ∀ name r metadata format,
       Dict.get name resources = Some (VDict r) →
       ami_resource r metadata format →
       ∃ outputs,
         Dict.get "Outputs" (doc c') = Some (VDict outputs)
         ∧ Dict.get (instance_id_key_of name) outputs
           = Some (output ("Instance ID for " +:+ name)
                          (VDict [("Ref", VStr name)]))
         ∧ Dict.get (name_format_key_of name) outputs
           = Some (output ("Name format for the AMI for " +:+ name) format)
         ∧ Dict.get (previous_ami_key_of name) outputs
           = match Dict.get "PreviousAMI" metadata with
             | Some previous =>
                 Some (output ("Previous AMI ID created for " +:+ name)
                              previous)
             | None =>
                 Dict.get (previous_ami_key_of name) (outputs_of (doc c))
             end
         ∧ AmiOutput name (previous_ami_key_of name)
                     (instance_id_key_of name) (name_format_key_of name)
           ∈ ami_outputs c').
Proof.
  intros Hres Hwf H. unfold _scan_cloudpuff_metadata in H.
  rewrite Hres in H.
  destruct (scan_resources resources) as [infos|] eqn:Escan; [|done].
  simpl in H. split.
  - intros Hoff. rewrite Hoff in H. destruct infos; by injection H.
  - intros Hon name r metadata format Hget Hr. rewrite Hon in H.
    destruct (scan_resources_spec _ _ Hwf Escan) as (Hnd & _ & Hami).
    pose proof (Hami _ _ _ _ Hget Hr) as Hin.
    destruct infos as [|i infos]; [by apply elem_of_nil in Hin|].
    destruct (ami_steps_spec (i :: infos) [] Hnd (NoDup_nil_2))
      as (Hwfs & _ & Hrec & Hkeys).
    destruct (ami_steps (i :: infos) []) as [syn recs] eqn:Est.
    cbn [fst snd] in *.
    destruct (Hkeys _ Hin) as (Hid & Hfmt & Hprev). simpl in Hid, Hfmt, Hprev.
    unfold outputs_of.
    destruct (Dict.get "Outputs" (doc c)) as [[| | |o| |]|] eqn:Eout;
      try done.
    + injection H as <-. simpl. exists (Dict.update o syn).
      rewrite get_set_eq, !get_update_wf, Hid, Hfmt, Hprev by done.
      repeat split; try done.
      * by destruct (Dict.get "PreviousAMI" metadata).
      * apply elem_of_app. right. rewrite Hrec.
        by apply (list_elem_of_fmap_2 recorded) in Hin.
    + injection H as <-. simpl. exists (Dict.update [] syn).
      rewrite get_set_eq, !get_update_wf, Hid, Hfmt, Hprev by done.
      repeat split; try done.
      * by destruct (Dict.get "PreviousAMI" metadata).
      * apply elem_of_app. right. rewrite Hrec.
        by apply (list_elem_of_fmap_2 recorded) in Hin.
Qed.

Lemma ami_outputs_synthesized_witness :
  ∃ c',
    _scan_cloudpuff_metadata
      (example_compiler true
         [("Resources",
           VDict (example_resources
                    [("AMINameFormat", VStr "web");
                     ("PreviousAMI", VStr "ami-1")]));
          ("Outputs", VDict [])])
    = Ok c'
    ∧ ∃ outputs,
        Dict.get "Outputs" (doc c') = Some (VDict outputs)
        ∧ Dict.get "CloudPuffWebPreviousAMI" outputs
          = Some (output "Previous AMI ID created for Web" (VStr "ami-1"))
        ∧ AmiOutput "Web" "CloudPuffWebPreviousAMI" "CloudPuffWebInstanceID"
                    "CloudPuffWebAMINameFormat"
          ∈ ami_outputs c'.
Proof.
  eexists. split; [vm_compute; reflexivity|].
  destruct (proj2 (ami_outputs_synthesized
                     (example_compiler true
                        [("Resources",
                          VDict (example_resources
                                   [("AMINameFormat", VStr "web");
                                    ("PreviousAMI", VStr "ami-1")]));
                         ("Outputs", VDict [])])
                     _ _ eq_refl ltac:(apply NoDup_singleton) eq_refl)
              eq_refl "Web" _
              [("AMINameFormat", VStr "web"); ("PreviousAMI", VStr "ami-1")]
              (VStr "web") eq_refl
              ltac:(split; [reflexivity|eexists; repeat split]))
    as (outputs & Hout & _ & _ & Hprev & Hrec).
  exists outputs. split; [exact Hout|]. split; [exact Hprev|exact Hrec].
Defined.

(** *** The sections of a plain document *)

Lemma post_process_entries_plain params :
  ∀ lookups required,
    Forall (λ e, plain_parameter e.2) params →
    ∃ lookups' required',
      post_process_entries params lookups required
      = Ok (params, lookups', required').
Proof.
  induction params as [|[k v] params IH]; intros lookups required Hp.
  - by exists lookups, required.
  - apply Forall_cons in Hp as [(p & Hv & Hl & Hr) Hp]. simpl in Hv.
    subst v. simpl. rewrite get_del_ne, Hl, Hr by done. simpl.
    rewrite !del_absent by (by rewrite ?del_absent).
    destruct (IH lookups (set_required k true required) Hp)
      as (l' & r' & ->).
    simpl. eauto.
Qed.

Lemma copy_sections_fold sections reader_doc :
  ∀ d, copy_sections sections reader_doc d
       = foldl (λ d name, Dict.set name (section reader_doc name) d)
               d sections.
Proof. induction sections as [|s sections IH]; intros d; [done|apply IH]. Qed.



End CompilerProps.
